(** * cugrep: the matcher and the line scanner of [grep.cpp]

    A shallow embedding of [result], [searchline], [searchstream], [match]
    and [searchFile], and the properties of the matcher and of the line
    scanner proved on it.

    Conventions of the embedding.
    - A C++ [int] is a [Z]; every [int] operation of the source is followed
      by [to_int], the reduction to 32 bits in two's complement.  Where an
      [int] meets a [size_t] (comparison with [line.size()], index of a
      [std::string]) it is converted with [to_size_t].
    - A [std::string] is a [list byte].  [s[i]] is [string_at s i]: the byte
      at [i], and the terminating NUL at and after [s.size()].
    - [data] is a raw [const char*]: the embedding gives it the bytes that can
      be read through it, as a function from offset to byte.  The buffer
      proper is the offsets [0 .. size-1]; what lies after it is whatever the
      function says (the rest of the last page of a mapping, say).
    - Every read of [line], [pattern] and [data] is recorded, with the place
      in the source that made it, and [std::cout] is the list of the bytes
      written.  Both are collected by a writer monad.
    - Loops are fixpoints on a fuel; the entry points supply the fuel, and a
      run that exhausts it has no result ([None]). *)

From Stdlib Require Import Strings.Byte Strings.String.
From Stdlib Require Import ZArith List Bool Lia.
Import ListNotations.
Local Open Scope Z_scope.
Local Open Scope list_scope.

(** ** Machine integers *)

Definition INT_MAX : Z := 2147483647.

(** The value of an [int] expression: 32 bits, two's complement. *)
Definition to_int (z : Z) : Z :=
  (z + 2147483648) mod 4294967296 - 2147483648.

(** An [int] converted to [size_t] (64 bits, unsigned). *)
Definition to_size_t (z : Z) : Z :=
  z mod 18446744073709551616.

(** ** Bytes and strings *)

Definition NL : byte := x0a.
Definition COLON : byte := x3a.

Definition bytes (s : string) : list byte := list_byte_of_string s.

(** [s.size()] *)
Definition size (s : list byte) : Z := Z.of_nat (length s).

(** [s[i]] for a [std::string]: the index is a [size_type]. *)
Definition string_at (s : list byte) (i : Z) : byte :=
  nth (Z.to_nat (to_size_t i)) s x00.

(** The bytes behind a [const char*]: the buffer [buf], then [beyond]. *)
Definition memory := Z -> byte.

Definition load (buf : list byte) (beyond : Z -> byte) : memory :=
  fun i => if (0 <=? i) && (i <? size buf)
           then nth (Z.to_nat i) buf x00
           else beyond i.

(** The bounds-checked view of a buffer of [sz] bytes at [data]. *)
Definition buffer_get (data : memory) (sz : Z) (i : Z) : option byte :=
  if (0 <=? i) && (i <? sz) then Some (data i) else None.

(** The [n] offsets from [start] on. *)
Definition offsets (start : Z) (n : nat) : list Z :=
  map (fun k => start + Z.of_nat k) (seq 0 n).

(** The buffer of [sz] bytes at [data], as a list. *)
Definition buffer_of (data : memory) (sz : Z) : list byte :=
  map data (offsets 0 (Z.to_nat sz)).

(** ** Effects: the reads made and the bytes written *)

Inductive access : Type :=
| LineRead (i : Z)      (* line[i], searchline *)
| PatternRead (j : Z)   (* pattern[j], searchline and match *)
| MatchRead (i : Z)     (* data[startPos + matchLen], match *)
| CondRead (i : Z)      (* data[iter], condition of the line loop of searchFile *)
| WriteRead (i : Z).    (* data[i], cout.write in searchFile *)

Record effects : Type := Effects {
  reads : list access;
  stdout : list byte
}.

Definition no_effects : effects := Effects [] [].

Definition seq_effects (e1 e2 : effects) : effects :=
  Effects (reads e1 ++ reads e2) (stdout e1 ++ stdout e2).

(** A computation: its value and its effects, or nothing when the fuel ran
    out. *)
Definition M (A : Type) : Type := option (A * effects).

Definition ret {A} (a : A) : M A := Some (a, no_effects).

Definition bind {A B} (m : M A) (f : A -> M B) : M B :=
  match m with
  | None => None
  | Some (a, e1) =>
      match f a with
      | None => None
      | Some (b, e2) => Some (b, seq_effects e1 e2)
      end
  end.

Definition out_of_fuel {A} : M A := None.

Definition read_event (a : access) : M unit := Some (tt, Effects [a] []).

Definition write (bs : list byte) : M unit := Some (tt, Effects [] bs).

Notation "x <- m ;; k" := (bind m (fun x => k))
  (at level 61, m at next level, right associativity).
Notation "m ;;; k" := (bind m (fun _ => k))
  (at level 61, right associativity).

(** ** Configuration: the globals of [grep.cpp] *)

Record config : Type := Config {
  complement : bool;      (* -v *)
  recursive : bool;       (* -r *)
  pattern : list byte
}.

Section Program.

Variable cfg : config.

(** [patternSize = pattern.size()], an [int]. *)
Definition patternSize : Z := to_int (size (pattern cfg)).

(** [int result(int a) { return complement ? !bool(a) : a; }] *)
Definition result (a : Z) : Z :=
  if complement cfg then (if a =? 0 then 1 else 0) else a.

Definition read_line (line : list byte) (i : Z) : M byte :=
  read_event (LineRead i) ;;; ret (string_at line i).

Definition read_pattern (j : Z) : M byte :=
  read_event (PatternRead j) ;;; ret (string_at (pattern cfg) j).

Definition read_data (site : Z -> access) (data : memory) (i : Z) : M byte :=
  read_event (site i) ;;; ret (data i).

(** *** Stream mode *)

(** The [while] loop of [searchline] at [startPos], from [matchLen] on.
    [Some r]: the function returned [r] from inside the loop; [None]: the
    loop ended. *)
Fixpoint searchline_while (fuel : nat) (line : list byte)
         (startPos matchLen : Z) : M (option Z) :=
  match fuel with
  | O => out_of_fuel
  | S fuel' =>
      if to_size_t (to_int (startPos + matchLen)) <? size line then
        c <- read_line line (to_int (startPos + matchLen)) ;;
        p <- read_pattern matchLen ;;
        if Byte.eqb c p then
          let matchLen := to_int (matchLen + 1) in
          if matchLen =? patternSize
          then ret (Some (result (to_int (startPos + 1))))
          else searchline_while fuel' line startPos matchLen
        else ret None
      else ret None
  end.

(** The [for] loop of [searchline], from [startPos] on. *)
Fixpoint searchline_for (fuel : nat) (line : list byte) (startPos : Z) : M Z :=
  match fuel with
  | O => out_of_fuel
  | S fuel' =>
      if to_size_t startPos <? size line then
        r <- searchline_while (S (length line)) line startPos 0 ;;
        match r with
        | Some v => ret v
        | None => searchline_for fuel' line (to_int (startPos + 1))
        end
      else ret (result 0)
  end.

Definition searchline (line : list byte) : M Z :=
  searchline_for (S (length line)) line 0.

(** [searchstream]: the stream is the sequence of the lines that [getline]
    delivers, newline stripped. *)
Fixpoint searchstream (is_ : list (list byte)) : M unit :=
  match is_ with
  | [] => ret tt
  | line :: rest =>
      r <- searchline line ;;
      (if negb (r =? 0) then write (line ++ [NL]) else ret tt) ;;;
      searchstream rest
  end.

(** *** Buffer mode *)

(** The [while] loop of [match] at [startPos], from [matchLen] on. *)
Fixpoint match_while (fuel : nat) (data : memory)
         (startPos matchLen : Z) : M bool :=
  match fuel with
  | O => out_of_fuel
  | S fuel' =>
      c <- read_data MatchRead data (to_int (startPos + matchLen)) ;;
      p <- read_pattern matchLen ;;
      if Byte.eqb c p then
        let matchLen := to_int (matchLen + 1) in
        if matchLen =? patternSize
        then ret (negb (result (to_int (startPos + 1)) =? 0))
        else match_while fuel' data startPos matchLen
      else ret (negb (result 0 =? 0))
  end.

(** [bool match(const char* data, int startPos)] *)
Definition match_ (data : memory) (startPos : Z) : M bool :=
  match_while (S (length (pattern cfg))) data startPos 0.

(** The line loop of [searchFile]:
    [while(data[iter] != '\n' && iter < size) { ...; iter++; }].
    The value is [(iter, matchFound)] when the loop ends. *)
Fixpoint searchFile_line (fuel : nat) (data : memory) (sz : Z)
         (iter : Z) (matchFound : bool) : M (Z * bool) :=
  match fuel with
  | O => out_of_fuel
  | S fuel' =>
      c <- read_data CondRead data iter ;;
      if negb (Byte.eqb c NL) && (iter <? sz) then
        m <- (if negb matchFound then match_ data iter else ret false) ;;
        let matchFound := if negb matchFound && m then true else matchFound in
        searchFile_line fuel' data sz (to_int (iter + 1)) matchFound
      else ret (iter, matchFound)
  end.

(** [cout.write(data + startIndex, n)] *)
Definition cout_write (data : memory) (startIndex : Z) (n : Z) : M unit :=
  let idx := offsets startIndex (Z.to_nat n) in
  Some (tt, Effects (map WriteRead idx) (map data idx)).

(** The outer loop of [searchFile], from [iter] on. *)
Fixpoint searchFile_loop (fuel : nat) (data : memory) (sz : Z)
         (fpath : list byte) (iter : Z) : M unit :=
  match fuel with
  | O => out_of_fuel
  | S fuel' =>
      if iter <? sz then
        let startIndex := iter in
        r <- searchFile_line (S (Z.to_nat sz)) data sz iter false ;;
        let '(iter, matchFound) := r in
        (if matchFound then
           (if recursive cfg then write (fpath ++ [COLON]) else ret tt) ;;;
           cout_write data startIndex (to_int (iter - startIndex)) ;;;
           write [NL]
         else ret tt) ;;;
        searchFile_loop fuel' data sz fpath (to_int (iter + 1))
      else ret tt
  end.

(** [void searchFile(const char* data, int size, string fpath)] *)
Definition searchFile (data : memory) (sz : Z) (fpath : list byte) : M unit :=
  searchFile_loop (S (Z.to_nat sz)) data sz fpath 0.

End Program.

(** The bytes written by a run, and the reads it made. *)
Definition output {A} (m : M A) : option (list byte) :=
  option_map (fun r => stdout (snd r)) m.

Definition trace {A} (m : M A) : option (list access) :=
  option_map (fun r => reads (snd r)) m.

Definition value {A} (m : M A) : option A :=
  option_map fst m.

(** ** Notions used to state the properties *)

(** [P] is a prefix of [L]. *)
Fixpoint is_prefix (P L : list byte) : bool :=
  match P, L with
  | [], _ => true
  | _ :: _, [] => false
  | p :: P', l :: L' => Byte.eqb l p && is_prefix P' L'
  end.

(** The first position of [L], counted from [k], at which [P] starts. *)
Fixpoint find_from (P L : list byte) (k : nat) : option nat :=
  match L with
  | [] => None
  | _ :: L' => if is_prefix P L then Some k else find_from P L' (S k)
  end.

(** [P] occurs in [L] as a contiguous run of bytes. *)
Definition occurs (P L : list byte) : Prop :=
  exists pre post, L = pre ++ P ++ post.

(** The reads that stay inside a line [L] and a pattern [P]. *)
Definition in_line_and_pattern (L P : list byte) (a : access) : Prop :=
  match a with
  | LineRead i => 0 <= i < size L
  | PatternRead j => 0 <= j < size P
  | _ => False
  end.

(** The reads that [match] may make at [pos]: the pattern, and as many bytes
    of memory from [pos] on. *)
Definition in_match_window (pos : Z) (P : list byte) (a : access) : Prop :=
  match a with
  | MatchRead i => pos <= i < pos + size P
  | PatternRead j => 0 <= j < size P
  | _ => False
  end.

(** The reads of [match] that stay inside a buffer of [sz] bytes. *)
Definition match_read_inside (sz : Z) (a : access) : Prop :=
  match a with
  | MatchRead i => 0 <= i < sz
  | _ => True
  end.

(** The bytes of [P] are in memory from [pos] on. *)
Fixpoint matches_at (data : memory) (pos : Z) (P : list byte) : bool :=
  match P with
  | [] => true
  | p :: P' => Byte.eqb (data pos) p && matches_at data (pos + 1) P'
  end.

(** What [match] answers at [pos]: the comparison, inverted under [-v]. *)
Definition verdict (cfg : config) (data : memory) (pos : Z) : bool :=
  if complement cfg
  then negb (matches_at data pos (pattern cfg))
  else matches_at data pos (pattern cfg).

(** [match] returns [true] at [pos]. *)
Definition match_succeeds (cfg : config) (data : memory) (pos : Z) : bool :=
  match value (match_ cfg data pos) with
  | Some b => b
  | None => false
  end.

(** [match] returns [true] at one offset at least of the line [ln], given
    as the offset of its first byte and its bytes. *)
Definition line_found (cfg : config) (data : memory)
           (ln : Z * list byte) : bool :=
  existsb (match_succeeds cfg data) (offsets (fst ln) (length (snd ln))).

(** The lines of a buffer that starts at offset [pos], each with the offset
    of its first byte: the runs of bytes between newlines, the last one
    ended by the end of the buffer when no newline ends it. *)
Fixpoint lines_at (pos : Z) (buf : list byte) : list (Z * list byte) :=
  match buf with
  | [] => []
  | b :: buf' =>
      if Byte.eqb b NL then (pos, []) :: lines_at (pos + 1) buf'
      else match lines_at (pos + 1) buf' with
           | [] => [(pos, [b])]
           | (_, l) :: ls => (pos, b :: l) :: ls
           end
  end.

(** The lines of the buffer for which [match] succeeds somewhere. *)
Definition selected (cfg : config) (data : memory) (sz : Z)
  : list (list byte) :=
  map snd (filter (line_found cfg data) (lines_at 0 (buffer_of data sz))).

(** The bytes written for one line. *)
Definition emit (cfg : config) (fpath line : list byte) : list byte :=
  (if recursive cfg then fpath ++ [COLON] else []) ++ line ++ [NL].

(** The stream-mode predicate: [searchline] returns a non-zero [int]. *)
Definition stream_prints (cfg : config) (line : list byte) : bool :=
  match value (searchline cfg line) with
  | Some r => negb (r =? 0)
  | None => false
  end.

(** The bytes [l] are in memory from [pos] on. *)
Definition holds (data : memory) (pos : Z) (l : list byte) : Prop :=
  forall k, (k < length l)%nat -> data (pos + Z.of_nat k) = nth k l x00.

(** Prefix the effects [e] to a computation. *)
Definition tell {A} (e : effects) (m : M A) : M A :=
  match m with
  | None => None
  | Some (a, e2) => Some (a, seq_effects e e2)
  end.

(** ** The program around the scanner: [timenow], [fileMap], [iterFiles],
    [main]

    What the operating system answers is given: for a path, what [open],
    [fstat] and [mmap] do with it, and what a recursive walk of it yields;
    and the lines that [getline] reads from [cin].  The program's messages
    on [stderr] are recorded without the durations they print (the clock is
    not modelled), and so are the descriptors and mappings it takes and
    gives back. *)

(** What [open], [fstat] and [mmap] make of a path. *)
Inductive mapping : Type :=
| OpenFails                                  (* open returns -1 *)
| FstatFails                                 (* fstat returns -1 *)
| MmapFails (st_size : Z)                    (* mmap returns MAP_FAILED *)
| Mapped (st_size : Z) (data : memory).      (* the file, mapped *)

Record dir_entry : Type := Entry {
  entry_path : list byte;
  is_regular_file : bool
}.

(** A walk with [fs::recursive_directory_iterator]: the entries it yields,
    and whether it then throws a [filesystem_error]. *)
Record walk : Type := Walk {
  entries : list dir_entry;
  throws : bool
}.

Record system : Type := System {
  file_at : list byte -> mapping;
  walk_of : list byte -> walk;
  cin : list (list byte)
}.

(** A message on [stderr]. *)
Inductive diagnostic : Type :=
| Usage (prog : list byte)     (* Usage: <argv[0]> [-rv] pattern [file...] *)
| UnknownOption (c : byte)     (* Unknown option: -<c> *)
| Perror (call : list byte)    (* perror("open"), ("fstat"), ("mmap") *)
| FileSize (st_size : Z)       (* File size: <st_size> bytes *)
| Elapsed (what : list byte)   (* timenow: <what> : <duration> us *)
| FilesystemError              (* Filesystem error: <what()> *)
| TotalTime.                   (* TOTAL_TIME:<duration> *)

(** A descriptor or a mapping, taken or given back. *)
Inductive resource : Type :=
| Descriptor (path : list byte)
| Mapping (path : list byte).

Inductive syscall : Type :=
| Acquire (r : resource)       (* open, mmap: succeeded *)
| Release (r : resource).      (* close, munmap *)

Record report : Type := Report {
  core : effects;              (* the reads and the bytes on stdout *)
  stderr : list diagnostic;
  calls : list syscall
}.

(** A run of the program: what it did, or nothing when a loop of the
    scanner ran out of fuel. *)
Definition run : Type := option report.

Definition seq_report (a b : report) : report :=
  Report (seq_effects (core a) (core b))
         (stderr a ++ stderr b) (calls a ++ calls b).

Definition then_ (a b : run) : run :=
  match a, b with
  | Some x, Some y => Some (seq_report x y)
  | _, _ => None
  end.

Notation "a >> b" := (then_ a b) (at level 62, right associativity).

Definition skip : run := Some (Report no_effects [] []).

Definition say (d : diagnostic) : run := Some (Report no_effects [d] []).

Definition sys (c : syscall) : run := Some (Report no_effects [] [c]).

(** A run of the scanner inside the program. *)
Definition scan {A} (m : M A) : run :=
  option_map (fun r => Report (snd r) [] []) m.

(** [timenow(start, s)] *)
Definition timenow (s : list byte) : run := say (Elapsed s).

Section Main.

Variable os : system.
Variable cfg : config.

(** [void fileMap(const string& filePath)] *)
Definition fileMap (filePath : list byte) : run :=
  match file_at os filePath with
  | OpenFails => say (Perror (bytes "open"))
  | FstatFails =>
      sys (Acquire (Descriptor filePath)) >>
      timenow (bytes "File open") >>
      say (Perror (bytes "fstat")) >>
      sys (Release (Descriptor filePath))
  | MmapFails st_size =>
      sys (Acquire (Descriptor filePath)) >>
      timenow (bytes "File open") >>
      say (FileSize st_size) >>
      timenow (bytes "Stats") >>
      say (Perror (bytes "mmap")) >>
      sys (Release (Descriptor filePath))
  | Mapped st_size data =>
      sys (Acquire (Descriptor filePath)) >>
      timenow (bytes "File open") >>
      say (FileSize st_size) >>
      timenow (bytes "Stats") >>
      sys (Acquire (Mapping filePath)) >>
      timenow (bytes "Memory map") >>
      scan (searchFile cfg data (to_int st_size) filePath) >>
      timenow (bytes "Search") >>
      sys (Release (Mapping filePath)) >>
      sys (Release (Descriptor filePath)) >>
      timenow (bytes "Cleanup")
  end.

(** The body of the loop of [iterFiles], over the entries of the walk. *)
Fixpoint iterFiles_entries (es : list dir_entry) : run :=
  match es with
  | [] => skip
  | e :: es' =>
      (if is_regular_file e then fileMap (entry_path e) else skip) >>
      iterFiles_entries es'
  end.

(** [void iterFiles(const string& path)] *)
Definition iterFiles (path : list byte) : run :=
  iterFiles_entries (entries (walk_of os path)) >>
  (if throws (walk_of os path) then say FilesystemError else skip).

(** The loop of [main] over the file arguments. *)
Fixpoint main_files (args : list (list byte)) : run :=
  match args with
  | [] => skip
  | a :: args' =>
      (if recursive cfg then iterFiles a else fileMap a) >>
      main_files args'
  end.

End Main.

(** The loop of [main] over the letters of the option argument: the flags
    [(recursive, complement)], or the letter that is no option. *)
Fixpoint parse_options (letters : list byte) (flags : bool * bool)
  : byte + bool * bool :=
  match letters with
  | [] => inr flags
  | c :: letters' =>
      if Byte.eqb c "r" then parse_options letters' (true, snd flags)
      else if Byte.eqb c "v" then parse_options letters' (fst flags, true)
      else inl c
  end.

(** How [main] ends: it returns, or it uses a null pointer ([argv[0]] when
    [argc] is 0, [argv[argc]] taken for the pattern). *)
Inductive ending : Type :=
| Returns (code : Z)
| NullPointer.

(** What [main] does once the flags are known: the pattern is
    [argv[argIndex]], the files are the arguments after it. *)
Definition main_search (os : system) (argv : list (list byte))
           (argIndex : nat) (flags : bool * bool) : ending * run :=
  match nth_error argv argIndex with
  | None => (NullPointer, skip)
  | Some pat =>
      let cfg := Config (snd flags) (fst flags) pat in
      let argIndex := S argIndex in
      (Returns 0,
       (if Nat.eqb (length argv) argIndex
        then scan (searchstream cfg (cin os))
        else main_files os cfg (skipn argIndex argv)) >>
       say TotalTime)
  end.

(** [int main(int argc, char *argv[])]: [argc] is the length of [argv]. *)
Definition main (os : system) (argv : list (list byte)) : ending * run :=
  match argv with
  | [] => (NullPointer, skip)
  | [prog] => (Returns 1, say (Usage prog))
  | prog :: arg1 :: _ =>
      if Byte.eqb (nth 0 arg1 x00) "-" then
        match parse_options (tl arg1) (false, false) with
        | inl c => (Returns 1, say (UnknownOption c))
        | inr flags => main_search os argv 2 flags
        end
      else main_search os argv 1 (false, false)
  end.

(** The bytes that a run of the program writes on [stdout]. *)
Definition written (r : run) : option (list byte) :=
  option_map (fun x => stdout (core x)) r.


(** A mapped file whose size, and the size of the pattern after it, fit an
    [int]. *)
Definition fits_int (P : list byte) (m : mapping) : Prop :=
  match m with
  | Mapped st_size _ => 0 <= st_size /\ st_size + size P <= INT_MAX
  | _ => True
  end.

(** The line [L] holds the pattern [P]. *)
Definition contains (P L : list byte) : bool :=
  match find_from P L 0 with
  | Some _ => true
  | None => false
  end.

(** The letters of an option argument are all [r] or [v]. *)
Definition option_letters (letters : list byte) : Prop :=
  Forall (fun c => c = "r"%byte \/ c = "v"%byte) letters.

(** The letter [x] is among the letters of an option argument. *)
Definition has_letter (x : byte) (letters : list byte) : bool :=
  existsb (fun c => Byte.eqb c x) letters.

(** [l] is a whole line of [buf]: a run of bytes with no newline, that
    starts [buf] or follows a newline, and that ends [buf] or is followed by
    a newline. *)
Definition whole_line (buf l : list byte) : Prop :=
  ~ In NL l /\
  exists pre post,
    buf = pre ++ l ++ post /\
    (pre = [] \/ exists pre', pre = pre' ++ [NL]) /\
    (post = [] \/ exists post', post = NL :: post').

(** The pointer [data + k]. *)
Definition advance (data : memory) (k : Z) : memory :=
  fun i => data (k + i).

(** The reads of a scan that stay below given ends: the condition of the
    line loop below [cond_end], [match] below [match_end], [cout.write]
    below [write_end], and the pattern inside itself. *)
Definition scan_reads_below (cond_end match_end write_end : Z)
           (P : list byte) (a : access) : Prop :=
  match a with
  | LineRead _ => False
  | PatternRead j => 0 <= j < size P
  | MatchRead i => 0 <= i < match_end
  | CondRead i => 0 <= i < cond_end
  | WriteRead i => 0 <= i < write_end
  end.

(** A command line: the program's name, an option argument or none, the
    pattern, the files. *)
Definition command_line (prog : list byte) (opts : option (list byte))
           (pat : list byte) (files : list (list byte)) : list (list byte) :=
  match opts with
  | Some letters => prog :: ("-"%byte :: letters) :: pat :: files
  | None => prog :: pat :: files
  end.

Definition letters_of (opts : option (list byte)) : list byte :=
  match opts with
  | Some letters => letters
  | None => []
  end.

(** The option argument holds option letters only; with no option argument,
    the pattern does not start with a dash. *)
Definition well_formed (opts : option (list byte)) (pat : list byte) : Prop :=
  match opts with
  | Some letters => option_letters letters
  | None => nth 0 pat x00 <> "-"%byte
  end.

(** The configuration that a command line stands for. *)
Definition config_of (opts : option (list byte)) (pat : list byte) : config :=
  Config (has_letter "v" (letters_of opts)) (has_letter "r" (letters_of opts))
         pat.

(** What a run of the program reports, and the calls it makes. *)
Definition reported (r : run) : option (list diagnostic) :=
  option_map stderr r.

Definition called (r : run) : option (list syscall) :=
  option_map calls r.

(** The lines of the file at [path] that the scan selects; none when the
    file cannot be opened or mapped. *)
Definition file_lines (os : system) (cfg : config) (path : list byte)
  : list (list byte) :=
  match file_at os path with
  | Mapped st_size data => selected cfg data st_size
  | _ => []
  end.

(** The paths of the regular files that the walk of [path] yields. *)
Definition regular_files (os : system) (path : list byte)
  : list (list byte) :=
  map entry_path (filter is_regular_file (entries (walk_of os path))).

Arguments to_int : simpl never.
Arguments to_size_t : simpl never.
Arguments size : simpl never.
Arguments string_at : simpl never.

(** * Properties *)

(** ** Integers, strings, lists *)

Lemma to_int_id (z : Z) :
  -2147483648 <= z <= INT_MAX -> to_int z = z.
Proof.
  unfold to_int, INT_MAX. intros H.
  rewrite Z.mod_small by lia. lia.
Qed.

Lemma to_size_t_id (z : Z) :
  0 <= z <= INT_MAX -> to_size_t z = z.
Proof.
  unfold to_size_t, INT_MAX. intros H.
  apply Z.mod_small. lia.
Qed.

Lemma string_at_nth (s : list byte) (k : nat) :
  Z.of_nat k <= INT_MAX -> string_at s (Z.of_nat k) = nth k s x00.
Proof.
  intros H. unfold string_at.
  rewrite to_size_t_id by lia. now rewrite Nat2Z.id.
Qed.

Lemma size_nat (s : list byte) : size s = Z.of_nat (length s).
Proof. reflexivity. Qed.

Lemma skipn_nth_cons {A} (d : A) (l : list A) (k : nat) :
  (k < length l)%nat -> skipn k l = nth k l d :: skipn (S k) l.
Proof.
  revert k. induction l as [|a l IH]; intros k Hk; simpl in Hk.
  - lia.
  - destruct k as [|k]; [reflexivity|].
    simpl. rewrite (IH k) by lia. reflexivity.
Qed.

Lemma byte_eqb_refl (b : byte) : Byte.eqb b b = true.
Proof. now apply Byte.byte_dec_lb. Qed.

Lemma byte_eqb_eq (a b : byte) : Byte.eqb a b = true <-> a = b.
Proof.
  split; [apply Byte.byte_dec_bl | apply Byte.byte_dec_lb].
Qed.

Lemma byte_eqb_neq (a b : byte) : Byte.eqb a b = false <-> a <> b.
Proof.
  split.
  - apply Byte.eqb_false.
  - intros H. destruct (Byte.eqb a b) eqn:E; [|reflexivity].
    apply byte_eqb_eq in E. contradiction.
Qed.

(** ** The writer monad *)

Lemma bind_some {A B} (a : A) (e : effects) (f : A -> M B) :
  bind (Some (a, e)) f = tell e (f a).
Proof. reflexivity. Qed.

Lemma tell_some {A} (e : effects) (a : A) (tr : list access) (out : list byte) :
  tell e (Some (a, Effects tr out))
  = Some (a, Effects (reads e ++ tr) (stdout e ++ out)).
Proof. reflexivity. Qed.

Lemma bind_read_line {B} (L : list byte) (i : Z) (k : byte -> M B) :
  (c <- read_line L i ;; k c)
  = tell (Effects [LineRead i] []) (k (string_at L i)).
Proof. reflexivity. Qed.

Lemma bind_read_pattern {B} cfg (j : Z) (k : byte -> M B) :
  (p <- read_pattern cfg j ;; k p)
  = tell (Effects [PatternRead j] []) (k (string_at (pattern cfg) j)).
Proof. reflexivity. Qed.

Lemma bind_read_data {B} site (data : memory) (i : Z) (k : byte -> M B) :
  (c <- read_data site data i ;; k c)
  = tell (Effects [site i] []) (k (data i)).
Proof. reflexivity. Qed.

Ltac run_simpl :=
  repeat (progress (unfold ret, no_effects, seq_effects;
                    cbn [tell bind fst snd reads stdout app])).

(** ** Stream mode: [searchline] *)

Section Stream.

Variable cfg : config.
Hypothesis pattern_nonempty : pattern cfg <> [].
Hypothesis pattern_small : size (pattern cfg) <= INT_MAX.

Lemma patternSize_size : patternSize cfg = size (pattern cfg).
Proof.
  unfold patternSize. apply to_int_id.
  unfold size, INT_MAX in *. lia.
Qed.

Lemma is_prefix_nil_r (P : list byte) : P <> [] -> is_prefix P [] = false.
Proof. destruct P; [congruence | reflexivity]. Qed.

Variable L : list byte.
Hypothesis line_small : size L <= INT_MAX.

Lemma searchline_while_spec : forall (fuel s m : nat),
  (m < length (pattern cfg))%nat ->
  (s + m <= length L)%nat ->
  (length L - (s + m) < fuel)%nat ->
  exists tr,
    searchline_while cfg fuel L (Z.of_nat s) (Z.of_nat m)
    = Some (if is_prefix (skipn m (pattern cfg)) (skipn (s + m) L)
            then Some (result cfg (Z.of_nat s + 1)) else None,
            Effects tr [])
    /\ Forall (in_line_and_pattern L (pattern cfg)) tr.
Proof.
  unfold size, INT_MAX in *.
  induction fuel as [|fuel IH]; intros s m Hm Hs Hf; [lia|].
  cbn [searchline_while].
  replace (Z.of_nat s + Z.of_nat m) with (Z.of_nat (s + m)) by lia.
  rewrite to_int_id by (unfold INT_MAX; lia).
  rewrite to_size_t_id by (unfold INT_MAX; lia).
  unfold size.
  destruct (Z.ltb_spec (Z.of_nat (s + m)) (Z.of_nat (length L))) as [Hlt|Hge].
  - rewrite bind_read_line, bind_read_pattern.
    rewrite !string_at_nth by (unfold INT_MAX; lia).
    rewrite (skipn_nth_cons x00 L (s + m)) by lia.
    rewrite (skipn_nth_cons x00 (pattern cfg) m) by lia.
    cbn [is_prefix].
    assert (Hb : Forall (in_line_and_pattern L (pattern cfg))
                   [LineRead (Z.of_nat (s + m)); PatternRead (Z.of_nat m)]).
    { repeat constructor; unfold size; simpl; lia. }
    destruct (Byte.eqb (nth (s + m) L x00) (nth m (pattern cfg) x00)) eqn:E;
      cbn [andb].
    + replace (Z.of_nat m + 1) with (Z.of_nat (S m)) by lia.
      rewrite to_int_id by (unfold INT_MAX; lia).
      rewrite patternSize_size. unfold size.
      destruct (Z.eqb_spec (Z.of_nat (S m)) (Z.of_nat (length (pattern cfg))))
        as [Heq|Hne].
      * rewrite skipn_all2 by lia. cbn [is_prefix].
        rewrite to_int_id by (unfold INT_MAX; lia).
        eexists. split; [reflexivity|]. exact Hb.
      * destruct (IH s (S m)) as [tr [Hrun Htr]]; try lia.
        replace (s + S m)%nat with (S (s + m)) in Hrun by lia.
        rewrite Hrun. run_simpl.
        eexists. split; [reflexivity|].
        apply (Forall_app _ [_; _] tr). split; assumption.
    + eexists. split; [reflexivity|]. exact Hb.
  - rewrite (skipn_all2 L) by lia.
    rewrite is_prefix_nil_r.
    + exists []. split; [reflexivity | constructor].
    + intros Hnil. apply (f_equal (@length byte)) in Hnil.
      rewrite length_skipn in Hnil. simpl in Hnil. lia.
Qed.

Lemma searchline_for_spec : forall (fuel s : nat),
  (s <= length L)%nat ->
  (length L - s < fuel)%nat ->
  exists tr,
    searchline_for cfg fuel L (Z.of_nat s)
    = Some (match find_from (pattern cfg) (skipn s L) s with
            | Some k => result cfg (Z.of_nat k + 1)
            | None => result cfg 0
            end, Effects tr [])
    /\ Forall (in_line_and_pattern L (pattern cfg)) tr.
Proof.
  induction fuel as [|fuel IH]; intros s Hs Hf; [lia|].
  cbn [searchline_for].
  assert (HL : Z.of_nat (length L) <= INT_MAX) by exact line_small.
  rewrite to_size_t_id by lia.
  unfold size.
  destruct (Z.ltb_spec (Z.of_nat s) (Z.of_nat (length L))) as [Hlt|Hge].
  - assert (H0 : (0 < length (pattern cfg))%nat).
    { destruct (pattern cfg); [congruence | simpl; lia]. }
    destruct (searchline_while_spec (S (length L)) s 0)
      as [tr1 [Hrun1 Htr1]]; try lia.
    change (Z.of_nat 0) with 0 in Hrun1.
    rewrite Nat.add_0_r in Hrun1. cbn [skipn] in Hrun1.
    rewrite Hrun1. rewrite bind_some.
    rewrite (skipn_nth_cons x00 L s) in * by lia.
    cbn [find_from].
    destruct (is_prefix (pattern cfg) (nth s L x00 :: skipn (S s) L)).
    + run_simpl. rewrite app_nil_r.
      eexists. split; [reflexivity | exact Htr1].
    + destruct (IH (S s)) as [tr2 [Hrun2 Htr2]]; try lia.
      replace (Z.of_nat s + 1) with (Z.of_nat (S s)) by lia.
      rewrite to_int_id by lia.
      rewrite Hrun2. run_simpl.
      eexists. split; [reflexivity|].
      apply Forall_app. split; assumption.
  - rewrite skipn_all2 by lia. cbn [find_from].
    exists []. split; [reflexivity | constructor].
Qed.

End Stream.

(** *** Occurrences *)

Lemma is_prefix_spec (P L : list byte) :
  is_prefix P L = true <-> exists post, L = P ++ post.
Proof.
  revert L. induction P as [|p P IH]; intros L.
  - split; [exists L; reflexivity | reflexivity].
  - destruct L as [|l L]; cbn [is_prefix].
    + split; [discriminate | intros [post H]; discriminate].
    + rewrite andb_true_iff, byte_eqb_eq, IH. split.
      * intros [-> [post ->]]. exists post. reflexivity.
      * intros [post H]. injection H as -> ->. split; [reflexivity|].
        exists post. reflexivity.
Qed.

Lemma is_prefix_short (P L : list byte) :
  (length L < length P)%nat -> is_prefix P L = false.
Proof.
  intros H. destruct (is_prefix P L) eqn:E; [|reflexivity].
  apply is_prefix_spec in E. destruct E as [post ->].
  rewrite length_app in H. lia.
Qed.

Lemma find_from_some (P : list byte) : forall (L : list byte) (k0 k : nat),
  find_from P L k0 = Some k ->
  exists pre post,
    L = pre ++ P ++ post /\ k = (k0 + length pre)%nat /\
    forall pre' post', L = pre' ++ P ++ post' ->
                       (length pre <= length pre')%nat.
Proof.
  induction L as [|a L IH]; intros k0 k H; cbn [find_from] in H.
  - discriminate.
  - destruct (is_prefix P (a :: L)) eqn:E.
    + injection H as <-. apply is_prefix_spec in E. destruct E as [post E].
      exists [], post. repeat split.
      * exact E.
      * simpl. lia.
      * intros. simpl. lia.
    + destruct (IH _ _ H) as [pre [post [HL [Hk Hmin]]]].
      exists (a :: pre), post. repeat split.
      * simpl. now rewrite HL.
      * simpl. lia.
      * intros pre' post' H'. destruct pre' as [|a' pre'].
        -- simpl in H'.
           assert (is_prefix P (a :: L) = true)
             by (apply is_prefix_spec; exists post'; exact H').
           congruence.
        -- simpl in H'. injection H' as _ H'.
           specialize (Hmin _ _ H'). simpl. lia.
Qed.

Lemma find_from_none (P : list byte) : forall (L : list byte) (k0 : nat),
  P <> [] -> find_from P L k0 = None -> ~ occurs P L.
Proof.
  induction L as [|a L IH]; intros k0 HP H [pre [post HL]].
  - destruct pre; [destruct P; [congruence | discriminate] | discriminate].
  - cbn [find_from] in H.
    destruct (is_prefix P (a :: L)) eqn:E; [discriminate|].
    destruct pre as [|a' pre].
    + simpl in HL.
      assert (is_prefix P (a :: L) = true)
        by (apply is_prefix_spec; exists post; exact HL).
      congruence.
    + simpl in HL. injection HL as _ HL.
      apply (IH (S k0) HP H). exists pre, post. exact HL.
Qed.

Lemma searchline_runs (cfg : config) (L : list byte) :
  pattern cfg <> [] ->
  size (pattern cfg) <= INT_MAX ->
  size L <= INT_MAX ->
  exists tr,
    searchline cfg L
    = Some (match find_from (pattern cfg) L 0 with
            | Some k => result cfg (Z.of_nat k + 1)
            | None => result cfg 0
            end, Effects tr [])
    /\ Forall (in_line_and_pattern L (pattern cfg)) tr.
Proof.
  intros HP HPs HL. unfold searchline.
  destruct (searchline_for_spec cfg HP HPs L HL (S (length L)) 0%nat)
    as [tr [Hrun Htr]]; try lia.
  exists tr. split; [exact Hrun | exact Htr].
Qed.

(** ** Buffer mode: [match] *)

Lemma offsets_S (start : Z) (n : nat) :
  offsets start (S n) = start :: offsets (start + 1) n.
Proof.
  unfold offsets. cbn [seq map]. f_equal.
  - lia.
  - rewrite <- seq_shift, map_map. apply map_ext. intros k. lia.
Qed.

Lemma offsets_length (start : Z) (n : nat) : length (offsets start n) = n.
Proof. unfold offsets. now rewrite length_map, length_seq. Qed.

Section Buffer.

Variable cfg : config.
Hypothesis pattern_nonempty : pattern cfg <> [].

Variable data : memory.

Lemma pattern_length_pos : (0 < length (pattern cfg))%nat.
Proof. destruct (pattern cfg); [congruence | simpl; lia]. Qed.

Lemma match_while_spec (pos : Z) :
  0 <= pos -> pos + size (pattern cfg) <= INT_MAX ->
  forall (fuel m : nat),
  (m < length (pattern cfg))%nat ->
  (length (pattern cfg) - m <= fuel)%nat ->
  exists tr,
    match_while cfg fuel data pos (Z.of_nat m)
    = Some (if matches_at data (pos + Z.of_nat m) (skipn m (pattern cfg))
            then negb (result cfg (pos + 1) =? 0)
            else negb (result cfg 0 =? 0),
            Effects tr [])
    /\ Forall (in_match_window pos (pattern cfg)) tr
    /\ (forall k : nat,
          (m + k < length (pattern cfg))%nat ->
          matches_at data (pos + Z.of_nat m)
                     (firstn k (skipn m (pattern cfg))) = true ->
          In (MatchRead (pos + Z.of_nat (m + k))) tr).
Proof.
  intros Hpos Hmax. unfold size, INT_MAX in *.
  induction fuel as [|fuel IH]; intros m Hm Hf; [lia|].
  cbn [match_while].
  rewrite to_int_id by (unfold INT_MAX; lia).
  rewrite bind_read_data, bind_read_pattern.
  rewrite string_at_nth by (unfold INT_MAX; lia).
  rewrite (skipn_nth_cons x00 (pattern cfg) m) by lia.
  cbn [matches_at].
  assert (Hhead : forall (tr' : list access) (k : nat),
            (k = 0)%nat ->
            In (MatchRead (pos + Z.of_nat (m + k)))
               (MatchRead (pos + Z.of_nat m) :: tr')).
  { intros tr' k ->. left. do 2 f_equal. lia. }
  destruct (Byte.eqb (data (pos + Z.of_nat m)) (nth m (pattern cfg) x00))
    eqn:E; cbn [andb].
  - replace (Z.of_nat m + 1) with (Z.of_nat (S m)) by lia.
    rewrite to_int_id by (unfold INT_MAX; lia).
    rewrite patternSize_size by (unfold size, INT_MAX; lia). unfold size.
    destruct (Z.eqb_spec (Z.of_nat (S m)) (Z.of_nat (length (pattern cfg))))
      as [Heq|Hne].
    + rewrite skipn_all2 by lia. cbn [matches_at].
      rewrite to_int_id by (unfold INT_MAX; lia).
      eexists. split; [reflexivity|]. split.
      * repeat constructor; cbn; unfold size; lia.
      * intros k Hk _. apply Hhead. lia.
    + destruct (IH (S m)) as [tr [Hrun [Htr Hin]]]; try lia.
      replace (pos + Z.of_nat m + 1) with (pos + Z.of_nat (S m)) by lia.
      rewrite Hrun. run_simpl.
      eexists. split; [reflexivity|]. split.
      * repeat (constructor; [cbn; unfold size; lia|]). exact Htr.
      * intros k Hk Hmatch. destruct k as [|k]; [apply Hhead; reflexivity|].
        right. right.
        replace (m + S k)%nat with (S m + k)%nat by lia.
        apply Hin; [lia|].
        cbn [firstn matches_at] in Hmatch.
        apply andb_true_iff in Hmatch. destruct Hmatch as [_ Hmatch].
        replace (pos + Z.of_nat (S m)) with (pos + Z.of_nat m + 1) by lia.
        exact Hmatch.
  - eexists. split; [reflexivity|]. split.
    + repeat constructor; cbn; unfold size; lia.
    + intros k Hk Hmatch. destruct k as [|k]; [apply Hhead; reflexivity|].
      cbn [firstn matches_at] in Hmatch. rewrite E in Hmatch. discriminate.
Qed.

Lemma result_verdict (pos : Z) :
  0 <= pos ->
  (if matches_at data pos (pattern cfg)
   then negb (result cfg (pos + 1) =? 0)
   else negb (result cfg 0 =? 0))
  = verdict cfg data pos.
Proof.
  intros Hpos. unfold verdict, result.
  destruct (complement cfg), (matches_at data pos (pattern cfg));
    try reflexivity.
  - destruct (Z.eqb_spec (pos + 1) 0); [lia | reflexivity].
  - destruct (Z.eqb_spec (pos + 1) 0); [lia | reflexivity].
Qed.

Lemma match_runs (pos : Z) :
  0 <= pos -> pos + size (pattern cfg) <= INT_MAX ->
  exists tr,
    match_ cfg data pos = Some (verdict cfg data pos, Effects tr [])
    /\ Forall (in_match_window pos (pattern cfg)) tr
    /\ (forall k : nat,
          (k < length (pattern cfg))%nat ->
          matches_at data pos (firstn k (pattern cfg)) = true ->
          In (MatchRead (pos + Z.of_nat k)) tr).
Proof.
  intros Hpos Hmax. unfold match_.
  pose proof pattern_length_pos as Hlen.
  destruct (match_while_spec pos Hpos Hmax (S (length (pattern cfg))) 0)
    as [tr [Hrun [Htr Hin]]]; try lia.
  change (Z.of_nat 0) with 0 in *.
  rewrite Z.add_0_r in *. cbn [skipn Nat.add] in *.
  rewrite result_verdict in Hrun by exact Hpos.
  exists tr. repeat split; assumption.
Qed.

Lemma match_succeeds_verdict (pos : Z) :
  0 <= pos -> pos + size (pattern cfg) <= INT_MAX ->
  match_succeeds cfg data pos = verdict cfg data pos.
Proof.
  intros Hpos Hmax. unfold match_succeeds.
  destruct (match_runs pos Hpos Hmax) as [tr [Hrun _]].
  rewrite Hrun. reflexivity.
Qed.

End Buffer.

(** ** Buffer mode: lines *)

Lemma span_line (rest : list byte) :
  exists l tail,
    rest = l ++ tail /\ ~ In NL l /\
    (tail = [] \/ exists tail', tail = NL :: tail').
Proof.
  induction rest as [|b rest IH].
  - exists [], []. repeat split; [intros [] | now left].
  - destruct (Byte.byte_eq_dec b NL) as [->|Hb].
    + exists [], (NL :: rest). repeat split; [intros [] | right; now exists rest].
    + destruct IH as [l [tail [-> [Hl Ht]]]].
      exists (b :: l), tail. repeat split; [|exact Ht].
      intros [H|H]; [congruence | contradiction].
Qed.

Lemma lines_at_line_nl (l tail : list byte) : forall pos,
  ~ In NL l ->
  lines_at pos (l ++ NL :: tail)
  = (pos, l) :: lines_at (pos + size l + 1) tail.
Proof.
  induction l as [|b l IH]; intros pos Hl.
  - cbn [app lines_at]. rewrite byte_eqb_refl.
    unfold size. cbn [length]. do 2 f_equal. lia.
  - cbn [app lines_at].
    assert (Hb : Byte.eqb b NL = false).
    { apply byte_eqb_neq. intros ->. apply Hl. now left. }
    rewrite Hb, IH by (intros H; apply Hl; now right).
    unfold size. cbn [length]. do 2 f_equal. lia.
Qed.

Lemma lines_at_last_line (l : list byte) : forall pos,
  ~ In NL l -> l <> [] -> lines_at pos l = [(pos, l)].
Proof.
  induction l as [|b l IH]; intros pos Hl Hne; [congruence|].
  cbn [lines_at].
  assert (Hb : Byte.eqb b NL = false).
  { apply byte_eqb_neq. intros ->. apply Hl. now left. }
  rewrite Hb. destruct l as [|c l]; [reflexivity|].
  rewrite IH; [reflexivity | intros H; apply Hl; now right | discriminate].
Qed.

Lemma lines_at_nonempty (buf : list byte) (pos : Z) :
  buf <> [] -> lines_at pos buf <> [].
Proof.
  destruct buf as [|b buf]; [congruence|]. intros _. cbn [lines_at].
  destruct (Byte.eqb b NL); [discriminate|].
  destruct (lines_at (pos + 1) buf) as [|[? ?] ?]; discriminate.
Qed.

(** A buffer cut after a newline: the lines of the two parts. *)
Lemma lines_at_app (pre rest : list byte) : forall pos,
  lines_at pos ((pre ++ [NL]) ++ rest)
  = lines_at pos (pre ++ [NL]) ++ lines_at (pos + size (pre ++ [NL])) rest.
Proof.
  induction pre as [|b pre IH]; intros pos.
  - cbn [app lines_at]. rewrite byte_eqb_refl. reflexivity.
  - cbn [app lines_at]. rewrite IH.
    replace (pos + size (b :: pre ++ [NL]))
      with (pos + 1 + size (pre ++ [NL]))
      by (unfold size; cbn [length]; lia).
    destruct (Byte.eqb b NL); [reflexivity|].
    pose proof (@lines_at_nonempty (pre ++ [NL]) (pos + 1)) as Hne.
    destruct (lines_at (pos + 1) (pre ++ [NL])) as [|[s l] ls].
    + exfalso. apply Hne; [|reflexivity]. destruct pre; discriminate.
    + reflexivity.
Qed.

Lemma holds_app_l (data : memory) (pos : Z) (l tail : list byte) :
  holds data pos (l ++ tail) -> holds data pos l.
Proof.
  intros H k Hk. rewrite H by (rewrite length_app; lia).
  now rewrite app_nth1.
Qed.

Lemma holds_app_r (data : memory) (pos : Z) (l tail : list byte) :
  holds data pos (l ++ tail) -> holds data (pos + size l) tail.
Proof.
  intros H k Hk. unfold size.
  replace (pos + Z.of_nat (length l) + Z.of_nat k)
    with (pos + Z.of_nat (length l + k)) by lia.
  rewrite H by (rewrite length_app; lia).
  rewrite app_nth2 by lia. f_equal. lia.
Qed.

Lemma holds_map (data : memory) (l : list byte) : forall pos,
  holds data pos l -> map data (offsets pos (length l)) = l.
Proof.
  induction l as [|b l IH]; intros pos H; [reflexivity|].
  cbn [length]. rewrite offsets_S. cbn [map]. f_equal.
  - specialize (H 0%nat). cbn in H. rewrite Z.add_0_r in H. apply H. lia.
  - apply IH. intros k Hk. specialize (H (S k)). cbn [nth length] in H.
    rewrite <- H by lia. f_equal. lia.
Qed.

Lemma nth_map_offsets (data : memory) : forall (n k : nat) (pos : Z),
  (k < n)%nat ->
  nth k (map data (offsets pos n)) x00 = data (pos + Z.of_nat k).
Proof.
  induction n as [|n IH]; intros k pos Hk; [lia|].
  rewrite offsets_S. cbn [map]. destruct k as [|k].
  - cbn [nth]. f_equal. lia.
  - cbn [nth]. rewrite IH by lia. f_equal. lia.
Qed.

Lemma holds_buffer_of (data : memory) (sz : Z) :
  holds data 0 (buffer_of data sz).
Proof.
  intros k Hk. unfold buffer_of in *.
  rewrite length_map, offsets_length in Hk.
  now rewrite nth_map_offsets.
Qed.

Lemma buffer_of_length (data : memory) (sz : Z) :
  0 <= sz -> size (buffer_of data sz) = sz.
Proof.
  intros H. unfold size, buffer_of. rewrite length_map, offsets_length. lia.
Qed.

Lemma last_app_cons {A} (l : list A) (a : A) (t : list A) (d : A) :
  last (l ++ a :: t) d = last (a :: t) d.
Proof.
  induction l as [|x l IH]; [reflexivity|].
  cbn [app]. rewrite <- IH. cbn [last].
  destruct (l ++ a :: t) eqn:E; [destruct l; discriminate | reflexivity].
Qed.

Lemma flat_map_selected {A B C} (f : A -> bool) (g : B -> list C)
      (p : A -> B) (l : list A) :
  flat_map (fun x => if f x then g (p x) else []) l
  = flat_map g (map p (filter f l)).
Proof.
  induction l as [|x l IH]; [reflexivity|].
  cbn [flat_map filter]. destruct (f x); cbn [map flat_map app]; now rewrite IH.
Qed.

(** ** Buffer mode: [searchFile] *)

Section Scan.

Variable cfg : config.
Variable data : memory.
Variable sz : Z.
Hypothesis sz_lt_max : sz < INT_MAX.

(** [match] returns, and writes nothing, at the offsets of the buffer. *)
Hypothesis match_returns :
  forall i, 0 <= i < sz ->
  exists v tr, match_ cfg data i = Some (v, Effects tr []).

(** The line loop, [n] bytes before the end of the line. *)
Lemma searchFile_line_spec : forall (n fuel : nat) (iter : Z) (found : bool),
  0 <= iter -> iter + Z.of_nat n <= sz ->
  (forall k, (k < n)%nat -> data (iter + Z.of_nat k) <> NL) ->
  (iter + Z.of_nat n = sz \/ data (iter + Z.of_nat n) = NL) ->
  (n < fuel)%nat ->
  exists tr,
    searchFile_line cfg fuel data sz iter found
    = Some ((iter + Z.of_nat n,
             found || existsb (match_succeeds cfg data) (offsets iter n)),
            Effects tr [])
    /\ In (CondRead (iter + Z.of_nat n)) tr.
Proof.
  pose proof sz_lt_max as Hsz.
  induction n as [|n IH]; intros fuel iter found Hi Hn Hline Hend Hf;
    (destruct fuel as [|fuel]; [lia|]);
    cbn [searchFile_line]; rewrite bind_read_data.
  - rewrite Z.add_0_r in *.
    assert (Hc : negb (Byte.eqb (data iter) NL) && (iter <? sz) = false).
    { destruct Hend as [-> | ->].
      - rewrite Z.ltb_irrefl. apply andb_false_r.
      - now rewrite byte_eqb_refl. }
    rewrite Hc. run_simpl. cbn [offsets seq map existsb].
    rewrite orb_false_r.
    eexists. split; [reflexivity | now left].
  - assert (Hc : negb (Byte.eqb (data iter) NL) && (iter <? sz) = true).
    { apply andb_true_iff. split.
      - apply negb_true_iff, byte_eqb_neq.
        specialize (Hline 0%nat). rewrite Z.add_0_r in Hline.
        apply Hline. lia.
      - apply Z.ltb_lt. lia. }
    rewrite Hc. rewrite offsets_S. cbn [existsb].
    rewrite to_int_id by (unfold INT_MAX in *; lia).
    assert (Hrest : forall found',
      exists tr,
        searchFile_line cfg fuel data sz (iter + 1) found'
        = Some ((iter + Z.of_nat (S n),
                 found' || existsb (match_succeeds cfg data)
                                   (offsets (iter + 1) n)),
                Effects tr [])
        /\ In (CondRead (iter + Z.of_nat (S n))) tr).
    { intros found'.
      replace (iter + Z.of_nat (S n)) with (iter + 1 + Z.of_nat n) by lia.
      apply IH; try lia.
      - intros k Hk.
        replace (iter + 1 + Z.of_nat k) with (iter + Z.of_nat (S k)) by lia.
        apply Hline. lia.
      - replace (iter + 1 + Z.of_nat n) with (iter + Z.of_nat (S n)) by lia.
        exact Hend. }
    destruct found; cbn [negb andb orb].
    + destruct (Hrest true) as [tr [Hrun Htr]].
      run_simpl. cbn [negb andb]. rewrite Hrun. run_simpl.
      eexists. split; [reflexivity|]. now right.
    + destruct (match_returns iter ltac:(lia)) as [v [tr1 Hm]].
      unfold match_succeeds at 1. rewrite Hm. cbn [value option_map fst].
      rewrite bind_some.
      destruct (Hrest (if v then true else false))
        as [tr [Hrun Htr]].
      rewrite Hrun. run_simpl.
      destruct v; cbn [orb] in *;
        (eexists; split; [reflexivity|]);
        right; apply in_or_app; now right.
Qed.

(** The outer loop, at the start of the line that begins [rest]. *)
Lemma searchFile_loop_spec (fpath : list byte) :
  forall (fuel : nat) (rest : list byte) (iter : Z),
  0 <= iter -> iter + size rest = sz ->
  holds data iter rest ->
  (length rest < fuel)%nat ->
  exists tr,
    searchFile_loop cfg fuel data sz fpath iter
    = Some (tt, Effects tr
                  (flat_map (fun ln => if line_found cfg data ln
                                       then emit cfg fpath (snd ln) else [])
                            (lines_at iter rest)))
    /\ (last rest NL <> NL -> In (CondRead sz) tr).
Proof.
  pose proof sz_lt_max as Hsz.
  induction fuel as [|fuel IH]; intros rest iter Hi Hsize Hholds Hf; [lia|].
  cbn [searchFile_loop].
  assert (Hcase : rest = [] \/ rest <> [])
    by (destruct rest; [now left | right; discriminate]).
  destruct Hcase as [-> | Hne].
  { unfold size in Hsize. cbn [length] in Hsize.
    replace iter with sz by lia. rewrite Z.ltb_irrefl.
    exists []. split; [reflexivity | intros H; now elim H]. }
  destruct (span_line rest) as [l [tail [-> [Hl Htail]]]].
  unfold size in Hsize. rewrite length_app in Hsize, Hf.
  assert (Hlt : (iter <? sz) = true).
  { apply Z.ltb_lt.
    destruct Htail as [-> | [tail' ->]]; cbn [length] in *; [|lia].
    destruct l; [now elim Hne | cbn [length] in *; lia]. }
  rewrite Hlt.
  (* the line loop stops after [l] *)
  destruct (searchFile_line_spec (length l) (S (Z.to_nat sz)) iter false)
    as [tr1 [Hrun1 Htr1]]; try lia.
  { intros k Hk Hnl. apply Hl.
    rewrite Hholds in Hnl by (rewrite length_app; lia).
    rewrite app_nth1 in Hnl by lia. rewrite <- Hnl. now apply nth_In. }
  { destruct Htail as [-> | [tail' ->]]; cbn [length] in *; [left; lia|].
    right. rewrite Hholds by (rewrite length_app; cbn [length]; lia).
    rewrite app_nth2 by lia. now rewrite Nat.sub_diag. }
  rewrite Hrun1, bind_some. cbn [orb].
  change (existsb (match_succeeds cfg data) (offsets iter (length l)))
    with (line_found cfg data (iter, l)).
  replace (iter + Z.of_nat (length l) - iter) with (Z.of_nat (length l)) by lia.
  rewrite !to_int_id by (unfold INT_MAX in *; lia).
  unfold cout_write, write. rewrite Nat2Z.id.
  rewrite (holds_map data l iter) by (eapply holds_app_l; exact Hholds).
  (* what follows the line *)
  assert (Hnext : exists tr2,
    searchFile_loop cfg fuel data sz fpath (iter + Z.of_nat (length l) + 1)
    = Some (tt, Effects tr2
                  (flat_map (fun ln => if line_found cfg data ln
                                       then emit cfg fpath (snd ln) else [])
                            (tl (lines_at iter (l ++ tail)))))
    /\ hd (iter, l) (lines_at iter (l ++ tail)) = (iter, l)
    /\ lines_at iter (l ++ tail) <> []
    /\ (last (l ++ tail) NL <> NL -> In (CondRead sz) (tr1 ++ tr2))).
  { destruct Htail as [-> | [tail' ->]].
    - rewrite app_nil_r in *. cbn [length] in *.
      rewrite lines_at_last_line by assumption. cbn [tl hd flat_map].
      destruct fuel as [|fuel]; [destruct l; [congruence | cbn in Hf; lia]|].
      cbn [searchFile_loop].
      assert (Hge : (iter + Z.of_nat (length l) + 1 <? sz) = false)
        by (apply Z.ltb_ge; lia).
      rewrite Hge. exists []. repeat split; [discriminate|].
      intros _. rewrite app_nil_r.
      replace sz with (iter + Z.of_nat (length l)) by lia. exact Htr1.
    - rewrite lines_at_line_nl by assumption. cbn [tl hd].
      cbn [length] in *.
      destruct (IH tail' (iter + Z.of_nat (length l) + 1))
        as [tr2 [Hrun2 Htr2]]; try (unfold size; lia).
      { intros k Hk.
        replace (iter + Z.of_nat (length l) + 1 + Z.of_nat k)
          with (iter + Z.of_nat (length l + S k)) by lia.
        rewrite Hholds by (rewrite length_app; cbn [length]; lia).
        rewrite app_nth2 by lia.
        replace (length l + S k - length l)%nat with (S k) by lia.
        reflexivity. }
      exists tr2. unfold size in Hrun2. repeat split;
        [exact Hrun2 | discriminate |].
      intros Hlast. apply in_or_app. right. apply Htr2.
      rewrite last_app_cons in Hlast.
      destruct tail'; [now elim Hlast | exact Hlast]. }
  destruct Hnext as [tr2 [Hrun2 [Hhd [Hnil Hlast]]]].
  destruct (lines_at iter (l ++ tail)) as [|ln lns]; [congruence|].
  cbn [hd tl] in *. subst ln. cbn [flat_map snd].
  rewrite Hrun2. set (rest_out := flat_map _ lns).
  destruct (line_found cfg data (iter, l)).
  - unfold emit.
    destruct (recursive cfg); run_simpl;
      (eexists; split;
       [ rewrite <- ?app_assoc; reflexivity
       | intros H; specialize (Hlast H);
         apply in_app_or in Hlast; apply in_or_app;
         destruct Hlast; [now left | right] ]).
    + apply in_or_app. now right.
    + apply in_or_app. now right.
  - run_simpl.
    eexists. split; [reflexivity | exact Hlast].
Qed.

End Scan.

Lemma last_nth_pred (l : list byte) (d : byte) :
  l <> [] -> last l d = nth (length l - 1) l x00.
Proof.
  induction l as [|a l IH]; intros Hne; [congruence|].
  destruct l as [|b l]; [reflexivity|].
  change (last (a :: b :: l) d) with (last (b :: l) d).
  rewrite IH by discriminate. cbn [length].
  replace (S (S (length l)) - 1)%nat with (S (S (length l) - 1)) by lia.
  reflexivity.
Qed.

Lemma buffer_of_last (data : memory) (sz : Z) :
  0 < sz -> last (buffer_of data sz) NL = data (sz - 1).
Proof.
  intros Hsz.
  pose proof (buffer_of_length data sz ltac:(lia)) as Hlen. unfold size in Hlen.
  rewrite last_nth_pred.
  - rewrite <- (holds_buffer_of data sz) by lia. f_equal. lia.
  - intros H. rewrite H in Hlen. cbn in Hlen. lia.
Qed.

(** [searchFile] runs to its end; it writes the selected lines, and reads
    [data[size]] when the last byte of the buffer is not a newline. *)
Lemma searchFile_runs (cfg : config) (data : memory) (sz : Z)
      (fpath : list byte) :
  pattern cfg <> [] -> 0 <= sz -> sz + size (pattern cfg) <= INT_MAX ->
  exists tr,
    searchFile cfg data sz fpath
    = Some (tt, Effects tr (flat_map (emit cfg fpath) (selected cfg data sz)))
    /\ (0 < sz -> data (sz - 1) <> NL -> In (CondRead sz) tr).
Proof.
  intros HP Hsz Hmax. unfold searchFile, selected.
  pose proof (pattern_length_pos cfg HP) as Hlen.
  destruct (searchFile_loop_spec cfg data sz) with
    (fpath := fpath) (fuel := S (Z.to_nat sz))
    (rest := buffer_of data sz) (iter := 0)
    as [tr [Hrun Htr]].
  - unfold size in *. lia.
  - intros i Hi.
    destruct (match_runs cfg HP data i) as [tr [Hm _]];
      [lia | unfold size in *; lia |].
    now exists (verdict cfg data i), tr.
  - lia.
  - rewrite buffer_of_length by lia. lia.
  - apply holds_buffer_of.
  - pose proof (buffer_of_length data sz Hsz) as H. unfold size in H. lia.
  - exists tr. split.
    + rewrite Hrun. rewrite flat_map_selected. reflexivity.
    + intros Hpos Hlast. apply Htr. now rewrite buffer_of_last.
Qed.

Lemma searchstream_runs (cfg : config) :
  pattern cfg <> [] -> size (pattern cfg) <= INT_MAX ->
  forall lines : list (list byte),
  Forall (fun l => size l <= INT_MAX) lines ->
  output (searchstream cfg lines)
  = Some (flat_map (fun l => l ++ [NL]) (filter (stream_prints cfg) lines)).
Proof.
  intros HP HPs. induction lines as [|l lines IH]; intros Hall.
  - reflexivity.
  - inversion Hall as [|? ? Hl Hrest]; subst.
    specialize (IH Hrest). cbn [searchstream filter].
    destruct (searchline_runs cfg l HP HPs Hl) as [tr [Hrun _]].
    unfold stream_prints. rewrite Hrun. cbn [value option_map fst].
    rewrite bind_some.
    destruct (searchstream cfg lines) as [[[] [tr2 out2]]|];
      [|discriminate].
    cbn [output option_map snd stdout] in IH. injection IH as ->.
    destruct (negb (_ =? 0)); unfold write; run_simpl;
      cbn [output option_map snd stdout flat_map];
      rewrite <- ?app_assoc; reflexivity.
Qed.

(** ** Where the two modes agree *)

(** The stream-mode predicate in terms of [find_from]. *)
Lemma stream_prints_find (cfg : config) (L : list byte) :
  pattern cfg <> [] ->
  size (pattern cfg) <= INT_MAX ->
  size L <= INT_MAX ->
  stream_prints cfg L
  = match find_from (pattern cfg) L 0 with
    | Some _ => negb (complement cfg)
    | None => complement cfg
    end.
Proof.
  intros HP HPs HL. unfold stream_prints.
  destruct (searchline_runs cfg L HP HPs HL) as [tr [Hrun _]].
  rewrite Hrun. cbn [value option_map fst]. unfold result.
  destruct (find_from (pattern cfg) L 0) as [k|], (complement cfg);
    try reflexivity.
  - destruct (Z.eqb_spec (Z.of_nat k + 1) 0); [lia | reflexivity].
  - destruct (Z.eqb_spec (Z.of_nat k + 1) 0); [lia | reflexivity].
Qed.

(** X10. In stream mode [-v] negates the decision taken for the line: with
    [-v], [searchline] accepts a line exactly when it rejects it without,
    whatever [-r]. *)
Lemma stream_inversion_law (r1 r2 : bool) (P L : list byte) :
  P <> [] -> size P <= INT_MAX -> size L <= INT_MAX ->
  stream_prints (Config true r1 P) L
  = negb (stream_prints (Config false r2 P) L).
Proof.
  intros HP HPs HL.
  rewrite !stream_prints_find by assumption. cbn [pattern complement].
  destruct (find_from P L 0); reflexivity.
Qed.

Lemma existsb_map {A B} (f : B -> bool) (g : A -> B) (l : list A) :
  existsb f (map g l) = existsb (fun x => f (g x)) l.
Proof.
  induction l as [|x l IH]; [reflexivity|].
  cbn [map existsb]. now rewrite IH.
Qed.

Lemma existsb_ext {A} (f g : A -> bool) (l : list A) :
  (forall x, In x l -> f x = g x) -> existsb f l = existsb g l.
Proof.
  induction l as [|x l IH]; intros H; [reflexivity|].
  cbn [existsb]. rewrite H by now left.
  rewrite IH by (intros; apply H; now right). reflexivity.
Qed.





(** * The properties of the specification *)

(** ** Stream mode *)

(** C4. Without [-v] and with a non-empty pattern, [searchline] returns a
    non-zero [int] exactly when the pattern occurs in the line as a
    contiguous run of bytes, and the [int] it returns is then the position
    of the leftmost occurrence, counted from 1; it returns 0 when there is
    none.  Lines and patterns have [INT_MAX] bytes at most, the range in
    which the [int] counters of the source do not overflow. *)
Theorem searchline_leftmost_occurrence (cfg : config) (L : list byte) :
  complement cfg = false ->
  pattern cfg <> [] ->
  size (pattern cfg) <= INT_MAX ->
  size L <= INT_MAX ->
  exists r,
    value (searchline cfg L) = Some r /\
    (r <> 0 <-> occurs (pattern cfg) L) /\
    (r <> 0 ->
     exists pre post,
       L = pre ++ pattern cfg ++ post /\
       r = size pre + 1 /\
       forall pre' post',
         L = pre' ++ pattern cfg ++ post' -> size pre <= size pre').
Proof.
  intros Hc HP HPs HL.
  destruct (searchline_runs cfg L HP HPs HL) as [tr [Hrun _]].
  rewrite Hrun. cbn [value option_map fst].
  unfold result. rewrite Hc.
  destruct (find_from (pattern cfg) L 0) as [k|] eqn:E.
  - destruct (find_from_some _ _ _ _ E) as [pre [post [HLeq [Hk Hmin]]]].
    cbn [Nat.add] in Hk. subst k.
    exists (Z.of_nat (length pre) + 1). split; [reflexivity|]. split.
    + split; [intros _; now exists pre, post | lia].
    + intros _. exists pre, post. repeat split; [exact HLeq|].
      intros pre' post' H'. specialize (Hmin _ _ H'). unfold size. lia.
  - exists 0. split; [reflexivity|]. split.
    + split; [congruence|]. intros Hocc.
      exfalso. exact (find_from_none _ _ _ HP E Hocc).
    + congruence.
Qed.

Lemma searchline_leftmost_occurrence_witness :
  let cfg := Config false false (bytes "cat") in
  let L := bytes "a catfish, a cat" in
  (complement cfg = false /\ pattern cfg <> [] /\
   size (pattern cfg) <= INT_MAX /\ size L <= INT_MAX) /\
  exists r,
    value (searchline cfg L) = Some r /\
    (r <> 0 <-> occurs (pattern cfg) L) /\
    (r <> 0 ->
     exists pre post,
       L = pre ++ pattern cfg ++ post /\
       r = size pre + 1 /\
       forall pre' post',
         L = pre' ++ pattern cfg ++ post' -> size pre <= size pre').
Proof.
  cbv zeta. split.
  - repeat split; [discriminate | vm_compute; discriminate
                   | vm_compute; discriminate].
  - apply searchline_leftmost_occurrence;
      [reflexivity | discriminate | vm_compute; discriminate
       | vm_compute; discriminate].
Defined.

(** C10. In stream mode every comparison is bounded by the line: for a
    non-empty pattern, [searchline] reads [line] only at indices below
    [line.size()] and [pattern] only at indices below [pattern.size()]; at a
    start offset from which the pattern would extend past the end of the
    line, the comparison loop ends without a match, having read nothing
    outside the line.  [match], the buffer-mode matcher, has no such bound:
    on the two-byte buffer "ab" it reads [data[2]] for the pattern "abc". *)
Theorem searchline_reads_in_bounds :
  (forall (cfg : config) (L : list byte),
     pattern cfg <> [] ->
     size (pattern cfg) <= INT_MAX ->
     size L <= INT_MAX ->
     (exists tr,
        trace (searchline cfg L) = Some tr /\
        Forall (in_line_and_pattern L (pattern cfg)) tr) /\
     (forall s : nat,
        Z.of_nat s <= size L ->
        size L < Z.of_nat s + size (pattern cfg) ->
        exists tr,
          searchline_while cfg (S (length L)) L (Z.of_nat s) 0
          = Some (None, Effects tr []) /\
          Forall (in_line_and_pattern L (pattern cfg)) tr)) /\
  (forall beyond,
     exists tr,
       trace (match_ (Config false false (bytes "abc"))
                     (load (bytes "ab") beyond) 0) = Some tr /\
       In (MatchRead 2) tr /\
       buffer_get (load (bytes "ab") beyond) 2 2 = None).
Proof.
  split.
  - intros cfg L HP HPs HL. split.
    + destruct (searchline_runs cfg L HP HPs HL) as [tr [Hrun Htr]].
      exists tr. rewrite Hrun. split; [reflexivity | exact Htr].
    + intros s Hs Hlong. unfold size in *.
      assert (Hlen : (0 < length (pattern cfg))%nat)
        by (destruct (pattern cfg); [congruence | simpl; lia]).
      destruct (searchline_while_spec cfg HPs L HL (S (length L)) s 0)
        as [tr [Hrun Htr]]; try lia.
      change (Z.of_nat 0) with 0 in Hrun.
      rewrite Nat.add_0_r in Hrun. cbn [skipn] in Hrun.
      rewrite is_prefix_short in Hrun by (rewrite length_skipn; lia).
      exists tr. split; assumption.
  - intros beyond.
    destruct (match_runs (Config false false (bytes "abc"))
                ltac:(discriminate) (load (bytes "ab") beyond) 0)
      as [tr [Hrun [_ Hin]]]; [lia | vm_compute; discriminate |].
    exists tr. rewrite Hrun. repeat split.
    apply (Hin 2%nat); [cbn; lia | reflexivity].
Qed.

Lemma searchline_reads_in_bounds_witness :
  let cfg := Config false false (bytes "abc") in
  let L := bytes "xxab" in
  (pattern cfg <> [] /\ size (pattern cfg) <= INT_MAX /\ size L <= INT_MAX) /\
  (exists tr,
     trace (searchline cfg L) = Some tr /\
     Forall (in_line_and_pattern L (pattern cfg)) tr) /\
  (forall s : nat,
     Z.of_nat s <= size L ->
     size L < Z.of_nat s + size (pattern cfg) ->
     exists tr,
       searchline_while cfg (S (length L)) L (Z.of_nat s) 0
       = Some (None, Effects tr []) /\
       Forall (in_line_and_pattern L (pattern cfg)) tr).
Proof.
  cbv zeta. split.
  - repeat split; [discriminate | vm_compute; discriminate
                   | vm_compute; discriminate].
  - apply (proj1 searchline_reads_in_bounds);
      [discriminate | vm_compute; discriminate | vm_compute; discriminate].
Defined.

(** ** Buffer mode: examples *)

(** C7. Scanning the buffer "abc\ndef\n" for "bc" writes the one line "abc"
    and its newline, the newline of the buffer not being part of the line;
    scanning it for "x" writes nothing.  Whatever follows the buffer in
    memory, and whatever the label. *)
Theorem line_splitting_example (beyond : Z -> byte) (fpath : list byte) :
  let buf := bytes "abc" ++ [NL] ++ bytes "def" ++ [NL] in
  let data := load buf beyond in
  output (searchFile (Config false false (bytes "bc")) data (size buf) fpath)
  = Some (bytes "abc" ++ [NL]) /\
  selected (Config false false (bytes "bc")) data (size buf) = [bytes "abc"] /\
  output (searchFile (Config false false (bytes "x")) data (size buf) fpath)
  = Some [] /\
  selected (Config false false (bytes "x")) data (size buf) = [].
Proof.
  cbv zeta. repeat split; vm_compute; reflexivity.
Qed.

(** C1, as the code has it.  In buffer mode [-v] is applied by [match] to
    each offset, not to the line: a line is written as soon as the pattern
    fails to start at one of its offsets.  Scanning "cat\ndog\ncatfish\n" for
    "cat" under [-v] writes the three lines, and the line "cat" is selected
    with and without [-v]. *)
Theorem invert_is_applied_per_offset_in_buffer_mode
        (beyond : Z -> byte) (fpath : list byte) :
  let buf := bytes "cat" ++ [NL] ++ bytes "dog" ++ [NL]
             ++ bytes "catfish" ++ [NL] in
  let data := load buf beyond in
  output (searchFile (Config true false (bytes "cat")) data (size buf) fpath)
  = Some (bytes "cat" ++ [NL] ++ bytes "dog" ++ [NL]
          ++ bytes "catfish" ++ [NL]) /\
  line_found (Config true false (bytes "cat")) data (0, bytes "cat") = true /\
  line_found (Config false false (bytes "cat")) data (0, bytes "cat") = true.
Proof.
  cbv zeta. repeat split; vm_compute; reflexivity.
Qed.

(** C2, as the code has it.  [match] takes no size and bounds no comparison:
    at offset 0 of the two-byte buffer "ab", with the pattern "abc", it reads
    [data[2]], one past the end of the buffer, and its answer is the byte it
    finds there: a match when that byte is a "c". *)
Theorem match_reads_past_the_end_of_the_buffer :
  let cfg := Config false false (bytes "abc") in
  let buf := bytes "ab" in
  (size buf - 0 < size (pattern cfg)) /\
  (forall beyond,
     exists tr,
       trace (match_ cfg (load buf beyond) 0) = Some tr /\
       In (MatchRead 2) tr /\
       buffer_get (load buf beyond) (size buf) 2 = None) /\
  value (match_ cfg (load buf (fun _ => "c"%byte)) 0) = Some true /\
  value (match_ cfg (load buf (fun _ => x00)) 0) = Some false.
Proof.
  cbv zeta. split; [vm_compute; reflexivity|]. split.
  - intros beyond.
    destruct (match_runs (Config false false (bytes "abc"))
                ltac:(discriminate) (load (bytes "ab") beyond) 0)
      as [tr [Hrun [_ Hin]]]; [lia | vm_compute; discriminate |].
    exists tr. rewrite Hrun. repeat split.
    apply (Hin 2%nat); [cbn; lia | reflexivity].
  - split; vm_compute; reflexivity.
Qed.

(** C3, as the code has it.  The two modes decide differently under [-v]:
    the stream-mode predicate rejects the line "cat" for the pattern "cat"
    and accepts the empty line, and the buffer-mode scan writes the line
    "cat" and does not write the empty line.  Without [-v] they differ on a
    pattern that holds a newline, which [match] compares across the end of
    the line. *)
Theorem stream_and_buffer_modes_disagree
        (beyond : Z -> byte) (fpath : list byte) :
  let inv := Config true false (bytes "cat") in
  let nl := Config false false (bytes "c" ++ [NL] ++ bytes "d") in
  (stream_prints inv (bytes "cat") = false /\
   output (searchFile inv (load (bytes "cat" ++ [NL]) beyond) 4 fpath)
   = Some (bytes "cat" ++ [NL])) /\
  (stream_prints inv [] = true /\
   output (searchFile inv (load [NL] beyond) 1 fpath) = Some []) /\
  (stream_prints nl (bytes "abc") = false /\
   output (searchFile nl (load (bytes "abc" ++ [NL] ++ bytes "def" ++ [NL])
                               beyond) 8 fpath)
   = Some (bytes "abc" ++ [NL])).
Proof.
  cbv zeta. repeat split; vm_compute; reflexivity.
Qed.

(** ** Buffer mode: the scan *)

Lemma buffer_of_prefix (data : memory) (sz : Z) (pre rest : list byte) :
  buffer_of data sz = pre ++ rest -> buffer_of data (size pre) = pre.
Proof.
  intros H. unfold buffer_of at 1, size. rewrite Nat2Z.id.
  apply holds_map. apply holds_app_l with (tail := rest).
  rewrite <- H. apply holds_buffer_of.
Qed.

Lemma buffer_of_nonempty (data : memory) (sz : Z) :
  buffer_of data sz <> [] -> 0 < sz.
Proof.
  intros H. destruct (Z.ltb_spec 0 sz) as [|Hle]; [assumption|].
  exfalso. apply H. unfold buffer_of.
  replace (Z.to_nat sz) with 0%nat by lia. reflexivity.
Qed.

Lemma lines_at_unterminated (pre last_line : list byte) :
  (pre = [] \/ exists pre', pre = pre' ++ [NL]) ->
  last_line <> [] -> ~ In NL last_line ->
  lines_at 0 (pre ++ last_line) = lines_at 0 pre ++ [(size pre, last_line)].
Proof.
  intros [-> | [pre' ->]] Hne Hnl.
  - cbn [app lines_at]. now apply lines_at_last_line.
  - rewrite lines_at_app. f_equal. now apply lines_at_last_line.
Qed.

(** C5. The end of the buffer ends a line: when the last byte of the buffer
    is not a newline, the bytes after the last newline (the whole buffer
    when it has none) are scanned as a line, and written after the output
    of the lines before them when [match] succeeds at one of their offsets.
    In particular "abc\ndef" scanned for "de" gives the one line "def". *)
Theorem final_line_without_terminator :
  (forall (cfg : config) (data : memory) (sz : Z) (fpath : list byte)
          (pre last_line : list byte),
     pattern cfg <> [] ->
     sz + size (pattern cfg) <= INT_MAX ->
     buffer_of data sz = pre ++ last_line ->
     (pre = [] \/ exists pre', pre = pre' ++ [NL]) ->
     last_line <> [] ->
     ~ In NL last_line ->
     exists out_pre,
       output (searchFile cfg data (size pre) fpath) = Some out_pre /\
       output (searchFile cfg data sz fpath)
       = Some (out_pre ++
               if line_found cfg data (size pre, last_line)
               then emit cfg fpath last_line else [])) /\
  (forall (beyond : Z -> byte) (fpath : list byte),
     let buf := bytes "abc" ++ [NL] ++ bytes "def" in
     output (searchFile (Config false false (bytes "de"))
                        (load buf beyond) (size buf) fpath)
     = Some (bytes "def" ++ [NL])).
Proof.
  split.
  - intros cfg data sz fpath pre last_line HP Hmax Hbuf Hpre Hne Hnl.
    assert (Hsz : 0 < sz).
    { apply (buffer_of_nonempty data). rewrite Hbuf.
      destruct pre; [exact Hne | discriminate]. }
    assert (Hsize : size pre <= sz).
    { rewrite <- (buffer_of_length data sz) by lia. rewrite Hbuf.
      unfold size. rewrite length_app. lia. }
    destruct (searchFile_runs cfg data sz fpath HP) as [tr [Hrun _]];
      [lia | exact Hmax |].
    destruct (searchFile_runs cfg data (size pre) fpath HP)
      as [tr' [Hrun' _]]; [unfold size; lia | lia |].
    exists (flat_map (emit cfg fpath) (selected cfg data (size pre))).
    rewrite Hrun, Hrun'. cbn [output option_map snd stdout].
    split; [reflexivity|]. f_equal.
    unfold selected.
    rewrite (buffer_of_prefix data sz pre last_line Hbuf), Hbuf.
    rewrite lines_at_unterminated by assumption.
    rewrite filter_app, map_app, flat_map_app. f_equal.
    cbn [filter].
    destruct (line_found cfg data (size pre, last_line));
      cbn [map flat_map snd]; [apply app_nil_r | reflexivity].
  - intros beyond fpath. cbv zeta.
    destruct (searchFile_runs (Config false false (bytes "de"))
                (load (bytes "abc" ++ [NL] ++ bytes "def") beyond)
                (size (bytes "abc" ++ [NL] ++ bytes "def")) fpath)
      as [tr [Hrun _]];
      [discriminate | vm_compute; discriminate | vm_compute; discriminate |].
    rewrite Hrun. cbn [output option_map snd stdout].
    apply f_equal. vm_compute. reflexivity.
Qed.

Lemma final_line_without_terminator_witness :
  let cfg := Config false false (bytes "de") in
  let pre := bytes "abc" ++ [NL] in
  let last_line := bytes "def" in
  let data := load (pre ++ last_line) (fun _ => x00) in
  (pattern cfg <> [] /\ 7 + size (pattern cfg) <= INT_MAX /\
   buffer_of data 7 = pre ++ last_line /\
   (pre = [] \/ exists pre', pre = pre' ++ [NL]) /\
   last_line <> [] /\ ~ In NL last_line) /\
  exists out_pre,
    output (searchFile cfg data (size pre) []) = Some out_pre /\
    output (searchFile cfg data 7 [])
    = Some (out_pre ++
            if line_found cfg data (size pre, last_line)
            then emit cfg [] last_line else []).
Proof.
  cbv zeta.
  assert (H1 : pattern (Config false false (bytes "de")) <> [])
    by discriminate.
  assert (H2 : 7 + size (pattern (Config false false (bytes "de")))
               <= INT_MAX) by (vm_compute; discriminate).
  assert (H3 : buffer_of (load ((bytes "abc" ++ [NL]) ++ bytes "def")
                               (fun _ => x00)) 7
               = (bytes "abc" ++ [NL]) ++ bytes "def") by reflexivity.
  assert (H4 : bytes "abc" ++ [NL] = [] \/
               exists pre', bytes "abc" ++ [NL] = pre' ++ [NL])
    by (right; exists (bytes "abc"); reflexivity).
  assert (H5 : bytes "def" <> []) by discriminate.
  assert (H6 : ~ In NL (bytes "def")).
  { cbn. intros [H|[H|[H|[]]]]; discriminate. }
  split.
  - repeat split; assumption.
  - exact (proj1 final_line_without_terminator _ _ _ [] _ _
                 H1 H2 H3 H4 H5 H6).
Defined.

Lemma selected_nonempty (cfg : config) (data : memory) (sz : Z) :
  Forall (fun l => l <> []) (selected cfg data sz).
Proof.
  unfold selected. apply Forall_forall. intros l Hin.
  apply in_map_iff in Hin. destruct Hin as [[s l'] [Hl Hin]].
  cbn [snd] in Hl. subst l'.
  apply filter_In in Hin. destruct Hin as [_ Hfound].
  intros ->. unfold line_found in Hfound.
  cbn [snd length offsets seq map existsb] in Hfound. discriminate Hfound.
Qed.

(** C6, counterexample.  Under [-v] the stream-mode predicate accepts the
    empty line, for the non-empty pattern "a", and [searchstream] writes
    it. *)
Lemma empty_line_is_printed_in_stream_mode_under_invert :
  let cfg := Config true false (bytes "a") in
  pattern cfg <> [] /\
  value (searchline cfg []) = Some 1 /\
  stream_prints cfg [] = true /\
  output (searchstream cfg [[]]) = Some [NL].
Proof.
  cbv zeta. split; [discriminate|].
  split; [reflexivity|]. split; reflexivity.
Qed.

(** C6, amended.  Without [-v], a line of no byte is never matched and never
    written: the stream-mode predicate returns 0 on it; in buffer mode
    [match] is not tried on it, and every line that the scan writes has a
    byte at least.  In particular "\n\nabc\n" scanned for "a" gives the one
    line "abc". *)
Theorem empty_line_is_not_printed_without_invert :
  (forall cfg : config,
     complement cfg = false ->
     pattern cfg <> [] ->
     value (searchline cfg []) = Some 0 /\
     stream_prints cfg [] = false /\
     output (searchstream cfg [[]]) = Some [] /\
     forall (data : memory) (sz : Z) (fpath : list byte),
       0 <= sz ->
       sz + size (pattern cfg) <= INT_MAX ->
       (forall start, line_found cfg data (start, []) = false) /\
       output (searchFile cfg data sz fpath)
       = Some (flat_map (emit cfg fpath) (selected cfg data sz)) /\
       Forall (fun l => l <> []) (selected cfg data sz)) /\
  (forall (beyond : Z -> byte) (fpath : list byte),
     let buf := [NL] ++ [NL] ++ bytes "abc" ++ [NL] in
     let cfg := Config false false (bytes "a") in
     output (searchFile cfg (load buf beyond) (size buf) fpath)
     = Some (bytes "abc" ++ [NL]) /\
     selected cfg (load buf beyond) (size buf) = [bytes "abc"]).
Proof.
  split.
  - intros cfg Hc HP.
    assert (Hline : searchline cfg [] = Some (0, no_effects)).
    { unfold searchline. cbn [length searchline_for].
      change (to_size_t 0 <? size []) with false. cbv iota.
      unfold result. rewrite Hc. reflexivity. }
    split; [now rewrite Hline|].
    split; [unfold stream_prints; now rewrite Hline|].
    split; [cbn [searchstream]; now rewrite Hline|].
    intros data sz fpath Hsz Hmax.
    split; [reflexivity|]. split.
    + destruct (searchFile_runs cfg data sz fpath HP) as [tr [Hrun _]];
        [assumption | assumption |].
      now rewrite Hrun.
    + apply selected_nonempty.
  - intros beyond fpath. cbv zeta. split; vm_compute; reflexivity.
Qed.

Lemma empty_line_is_not_printed_without_invert_witness :
  let cfg := Config false false (bytes "a") in
  (complement cfg = false /\ pattern cfg <> []) /\
  value (searchline cfg []) = Some 0 /\
  stream_prints cfg [] = false /\
  output (searchstream cfg [[]]) = Some [] /\
  forall (data : memory) (sz : Z) (fpath : list byte),
    0 <= sz ->
    sz + size (pattern cfg) <= INT_MAX ->
    (forall start, line_found cfg data (start, []) = false) /\
    output (searchFile cfg data sz fpath)
    = Some (flat_map (emit cfg fpath) (selected cfg data sz)) /\
    Forall (fun l => l <> []) (selected cfg data sz).
Proof.
  cbv zeta. split.
  - split; [reflexivity | discriminate].
  - apply (proj1 empty_line_is_not_printed_without_invert);
      [reflexivity | discriminate].
Defined.

(** The answers of [match] do not depend on [-r]. *)
Lemma selected_recursive (inv r1 r2 : bool) (P : list byte)
      (data : memory) (sz : Z) :
  selected (Config inv r1 P) data sz = selected (Config inv r2 P) data sz.
Proof. reflexivity. Qed.

(** C8. With [-r], every line that the buffer-mode scan writes is written as
    the label, a colon, the bytes of the line and a newline; without [-r]
    (one named file) it is the bytes of the line and a newline, and the
    lines written are the same.  [searchstream] writes the bytes of the line
    and a newline, whatever the flags.  The label "foo.txt" and the line
    "hello" give "foo.txt:hello". *)
Theorem path_tagging :
  (forall (inv : bool) (P : list byte) (data : memory) (sz : Z)
          (fpath : list byte),
     P <> [] -> 0 <= sz -> sz + size P <= INT_MAX ->
     let ls := selected (Config inv false P) data sz in
     output (searchFile (Config inv true P) data sz fpath)
     = Some (flat_map (fun l => fpath ++ [COLON] ++ l ++ [NL]) ls) /\
     output (searchFile (Config inv false P) data sz fpath)
     = Some (flat_map (fun l => l ++ [NL]) ls)) /\
  (forall (cfg : config) (lines : list (list byte)),
     pattern cfg <> [] -> size (pattern cfg) <= INT_MAX ->
     Forall (fun l => size l <= INT_MAX) lines ->
     output (searchstream cfg lines)
     = Some (flat_map (fun l => l ++ [NL])
                      (filter (stream_prints cfg) lines))) /\
  (forall beyond : Z -> byte,
     let buf := bytes "hello" ++ [NL] in
     output (searchFile (Config false true (bytes "ell"))
                        (load buf beyond) (size buf) (bytes "foo.txt"))
     = Some (bytes "foo.txt:hello" ++ [NL])).
Proof.
  split; [|split].
  - intros inv P data sz fpath HP Hsz Hmax. cbv zeta. split.
    + destruct (searchFile_runs (Config inv true P) data sz fpath HP Hsz Hmax)
        as [tr [Hrun _]].
      rewrite Hrun. cbn [output option_map snd stdout].
      rewrite (selected_recursive inv true false). apply f_equal.
      apply flat_map_ext. intros l. unfold emit. cbn [recursive].
      now rewrite <- app_assoc.
    + destruct (searchFile_runs (Config inv false P) data sz fpath HP Hsz Hmax)
        as [tr [Hrun _]].
      rewrite Hrun. reflexivity.
  - intros cfg lines HP HPs Hall. now apply searchstream_runs.
  - intros beyond. vm_compute. reflexivity.
Qed.

Lemma path_tagging_witness :
  let P := bytes "ell" in
  let buf := bytes "hello" ++ [NL] ++ bytes "world" ++ [NL] in
  let data := load buf (fun _ => x00) in
  let fpath := bytes "foo.txt" in
  (P <> [] /\ 0 <= size buf /\ size buf + size P <= INT_MAX) /\
  (output (searchFile (Config false true P) data (size buf) fpath)
   = Some (flat_map (fun l => fpath ++ [COLON] ++ l ++ [NL])
                    (selected (Config false false P) data (size buf))) /\
   output (searchFile (Config false false P) data (size buf) fpath)
   = Some (flat_map (fun l => l ++ [NL])
                    (selected (Config false false P) data (size buf)))).
Proof.
  cbv zeta. split.
  - split; [discriminate|]. split; vm_compute; discriminate.
  - apply (proj1 path_tagging);
      [discriminate | vm_compute; discriminate | vm_compute; discriminate].
Defined.

(** C9. The line loop of [searchFile] reads [data[iter]] before it compares
    [iter] with [size]: on every non-empty buffer whose last byte is not a
    newline, the scan reads [data[size]], one past the end of the buffer,
    in the condition of that loop.  This happens also when every read of
    [match] is inside the buffer, as on "abc\ndef" scanned for "de". *)
Theorem line_loop_reads_one_past_the_end :
  (forall (cfg : config) (data : memory) (sz : Z) (fpath : list byte),
     pattern cfg <> [] ->
     0 < sz ->
     sz + size (pattern cfg) <= INT_MAX ->
     data (sz - 1) <> NL ->
     exists tr,
       trace (searchFile cfg data sz fpath) = Some tr /\
       In (CondRead sz) tr /\
       buffer_get data sz sz = None) /\
  (let buf := bytes "abc" ++ [NL] ++ bytes "def" in
   exists tr,
     trace (searchFile (Config false false (bytes "de"))
                       (load buf (fun _ => x00)) (size buf) [])
     = Some tr /\
     In (CondRead (size buf)) tr /\
     Forall (match_read_inside (size buf)) tr).
Proof.
  split.
  - intros cfg data sz fpath HP Hsz Hmax Hlast.
    destruct (searchFile_runs cfg data sz fpath HP) as [tr [Hrun Hin]];
      [lia | exact Hmax |].
    exists tr. rewrite Hrun. split; [reflexivity|]. split.
    + now apply Hin.
    + unfold buffer_get. now rewrite Z.ltb_irrefl, andb_false_r.
  - cbv zeta. eexists. split; [vm_compute; reflexivity|]. split.
    + vm_compute. tauto.
    + repeat constructor; cbn; lia.
Qed.

Lemma line_loop_reads_one_past_the_end_witness :
  let cfg := Config false false (bytes "de") in
  let data := load (bytes "abc" ++ [NL] ++ bytes "def") (fun _ => x00) in
  (pattern cfg <> [] /\ 0 < 7 /\ 7 + size (pattern cfg) <= INT_MAX /\
   data (7 - 1) <> NL) /\
  exists tr,
    trace (searchFile cfg data 7 []) = Some tr /\
    In (CondRead 7) tr /\
    buffer_get data 7 7 = None.
Proof.
  cbv zeta. split.
  - split; [discriminate|]. split; [lia|].
    split; [vm_compute; discriminate | vm_compute; discriminate].
  - apply (proj1 line_loop_reads_one_past_the_end);
      [discriminate | lia | vm_compute; discriminate
       | vm_compute; discriminate].
Defined.

(** * The program around the scanner *)

(** ** Runs *)

Lemma written_then (a b : run) :
  written (a >> b)
  = match written a, written b with
    | Some u, Some v => Some (u ++ v)
    | _, _ => None
    end.
Proof. destruct a as [x|], b as [y|]; reflexivity. Qed.

Lemma called_then (a b : run) :
  called (a >> b)
  = match called a, called b with
    | Some u, Some v => Some (u ++ v)
    | _, _ => None
    end.
Proof. destruct a as [x|], b as [y|]; reflexivity. Qed.

Lemma written_scan {A} (m : M A) : written (scan m) = output m.
Proof. destruct m as [[a e]|]; reflexivity. Qed.

Lemma called_scan {A} (m : M A) :
  called (scan m) = option_map (fun _ => []) m.
Proof. destruct m as [[a e]|]; reflexivity. Qed.

(** ** Options *)

Lemma parse_options_letters (letters : list byte) : forall r v : bool,
  option_letters letters ->
  parse_options letters (r, v)
  = inr (r || has_letter "r" letters, v || has_letter "v" letters).
Proof.
  induction letters as [|c letters IH]; intros r v Hall.
  - cbn. now rewrite !orb_false_r.
  - inversion Hall as [|? ? Hc Hrest]; subst.
    cbn [parse_options has_letter existsb fst snd].
    destruct Hc as [-> | ->]; cbn [Byte.eqb]; cbn.
    + rewrite IH by assumption. unfold has_letter. now rewrite orb_true_r.
    + rewrite IH by assumption. unfold has_letter. now rewrite orb_true_r.
Qed.

Lemma parse_options_unknown (good rest : list byte) (c : byte) :
  forall flags : bool * bool,
  option_letters good ->
  c <> "r"%byte -> c <> "v"%byte ->
  parse_options (good ++ c :: rest) flags = inl c.
Proof.
  induction good as [|g good IH]; intros flags Hall Hr Hv.
  - cbn [app parse_options].
    apply byte_eqb_neq in Hr. apply byte_eqb_neq in Hv.
    now rewrite Hr, Hv.
  - inversion Hall as [|? ? Hg Hrest]; subst.
    cbn [app parse_options].
    destruct Hg as [-> | ->]; cbn; now apply IH.
Qed.

(** ** Files *)


Section Files.

Variable os : system.
Variable cfg : config.
Hypothesis pattern_nonempty : pattern cfg <> [].

Lemma written_fileMap (path : list byte) :
  fits_int (pattern cfg) (file_at os path) ->
  written (fileMap os cfg path)
  = Some (flat_map (emit cfg path) (file_lines os cfg path)).
Proof.
  unfold fileMap, file_lines, fits_int.
  destruct (file_at os path) as [| |st_size|st_size data]; intros Hfit;
    try reflexivity.
  destruct Hfit as [H0 Hmax].
  assert (Hsz : st_size < INT_MAX).
  { pose proof (pattern_length_pos cfg pattern_nonempty).
    unfold size in *. lia. }
  rewrite to_int_id by (unfold INT_MAX in *; lia).
  destruct (searchFile_runs cfg data st_size path pattern_nonempty H0 Hmax)
    as [tr [Hrun _]].
  rewrite Hrun. cbn. now rewrite app_nil_r.
Qed.


Lemma written_iterFiles_entries (es : list dir_entry) :
  (forall e, In e es -> is_regular_file e = true ->
             fits_int (pattern cfg) (file_at os (entry_path e))) ->
  written (iterFiles_entries os cfg es)
  = Some (flat_map (fun p => flat_map (emit cfg p) (file_lines os cfg p))
                   (map entry_path (filter is_regular_file es))).
Proof.
  induction es as [|e es IH]; intros Hfit; [reflexivity|].
  cbn [iterFiles_entries filter]. rewrite written_then.
  rewrite IH by (intros; apply Hfit; [now right | assumption]).
  destruct (is_regular_file e) eqn:E.
  - rewrite written_fileMap by (apply Hfit; [now left | exact E]).
    reflexivity.
  - reflexivity.
Qed.


Lemma written_iterFiles (path : list byte) :
  (forall p, In p (regular_files os path) ->
             fits_int (pattern cfg) (file_at os p)) ->
  written (iterFiles os cfg path)
  = Some (flat_map (fun p => flat_map (emit cfg p) (file_lines os cfg p))
                   (regular_files os path)).
Proof.
  intros Hfit. unfold iterFiles, regular_files in *.
  rewrite written_then, written_iterFiles_entries.
  - destruct (throws (walk_of os path)); cbn; now rewrite app_nil_r.
  - intros e Hin Hreg. apply Hfit. apply in_map.
    apply filter_In. split; assumption.
Qed.


(** The files that the argument [a] stands for: itself, or under [-r] the
    regular files of its walk. *)
Lemma written_main_files (args : list (list byte)) :
  (forall a p, In a args ->
               In p (if recursive cfg then regular_files os a else [a]) ->
               fits_int (pattern cfg) (file_at os p)) ->
  written (main_files os cfg args)
  = Some (flat_map
            (fun a =>
               flat_map (fun p => flat_map (emit cfg p) (file_lines os cfg p))
                        (if recursive cfg then regular_files os a else [a]))
            args).
Proof.
  induction args as [|a args IH]; intros Hfit; [reflexivity|].
  cbn [main_files flat_map]. rewrite written_then.
  rewrite IH by (intros b p Hb; apply Hfit; now right).
  specialize (Hfit a). destruct (recursive cfg).
  - rewrite written_iterFiles by (intros p; apply Hfit; now left).
    reflexivity.
  - rewrite written_fileMap by (apply Hfit; now left).
    cbn [flat_map]. now rewrite app_nil_r.
Qed.


End Files.

(** ** [main] *)

Lemma main_command_line (os : system) (prog : list byte)
      (opts : option (list byte)) (pat : list byte)
      (files : list (list byte)) :
  well_formed opts pat ->
  main os (command_line prog opts pat files)
  = (Returns 0,
     (match files with
      | [] => scan (searchstream (config_of opts pat) (cin os))
      | _ :: _ => main_files os (config_of opts pat) files
      end) >> say TotalTime).
Proof.
  unfold well_formed, command_line, config_of, letters_of.
  destruct opts as [letters|]; intros Hwf.
  - cbn [main nth tl]. rewrite byte_eqb_refl.
    rewrite parse_options_letters by assumption. cbn [orb].
    unfold main_search. cbn [nth_error fst snd length skipn].
    destruct files; reflexivity.
  - cbn [main]. apply byte_eqb_neq in Hwf. rewrite Hwf.
    unfold main_search. cbn [nth_error fst snd length skipn has_letter existsb].
    destruct files; reflexivity.
Qed.

Lemma contains_occurs (P L : list byte) :
  P <> [] -> (contains P L = true <-> occurs P L).
Proof.
  intros HP. unfold contains.
  destruct (find_from P L 0) as [k|] eqn:E.
  - split; [intros _ | reflexivity].
    destruct (find_from_some _ _ _ _ E) as [pre [post [HL _]]].
    now exists pre, post.
  - split; [discriminate|]. intros Hocc.
    exfalso. exact (find_from_none _ _ _ HP E Hocc).
Qed.

Lemma stream_prints_contains (cfg : config) (L : list byte) :
  pattern cfg <> [] ->
  size (pattern cfg) <= INT_MAX ->
  size L <= INT_MAX ->
  stream_prints cfg L = xorb (complement cfg) (contains (pattern cfg) L).
Proof.
  intros HP HPs HL. rewrite stream_prints_find by assumption.
  unfold contains.
  destruct (find_from (pattern cfg) L 0), (complement cfg); reflexivity.
Qed.

(** X1. With no file argument, [main] prints the lines of the standard
    input that hold the pattern, in their order, each followed by a
    newline, and returns 0; under [-v], the lines that do not hold it.
    [-r] changes nothing there.  A line holds the pattern when the pattern
    occurs in it as a contiguous run of bytes. *)
Theorem main_prints_the_lines_of_stdin
        (os : system) (prog : list byte) (opts : option (list byte))
        (pat : list byte) :
  well_formed opts pat ->
  pat <> [] ->
  size pat <= INT_MAX ->
  Forall (fun l => size l <= INT_MAX) (cin os) ->
  fst (main os (command_line prog opts pat [])) = Returns 0 /\
  written (snd (main os (command_line prog opts pat [])))
  = Some (flat_map (fun l => l ++ [NL])
            (filter (fun l => xorb (has_letter "v" (letters_of opts))
                                   (contains pat l))
                    (cin os))) /\
  (forall l, contains pat l = true <-> occurs pat l).
Proof.
  intros Hwf HP HPs Hlines.
  rewrite main_command_line by assumption. cbn [fst snd].
  split; [reflexivity|]. split; [|intros l; now apply contains_occurs].
  rewrite written_then, written_scan.
  rewrite searchstream_runs by assumption.
  cbn [written say option_map stdout core no_effects].
  rewrite app_nil_r. f_equal. f_equal.
  apply filter_ext_in. intros l Hl.
  rewrite Forall_forall in Hlines.
  rewrite (stream_prints_contains (config_of opts pat) l HP HPs (Hlines l Hl)).
  reflexivity.
Qed.

Lemma main_prints_the_lines_of_stdin_witness :
  let os := System (fun _ => OpenFails) (fun _ => Walk [] false)
                   [bytes "cat"; bytes "dog"; bytes "catfish"] in
  let opts := Some (bytes "rv") in
  let pat := bytes "cat" in
  (well_formed opts pat /\ pat <> [] /\ size pat <= INT_MAX /\
   Forall (fun l => size l <= INT_MAX) (cin os)) /\
  fst (main os (command_line [] opts pat [])) = Returns 0 /\
  written (snd (main os (command_line [] opts pat [])))
  = Some (flat_map (fun l => l ++ [NL])
            (filter (fun l => xorb (has_letter "v" (letters_of opts))
                                   (contains pat l))
                    (cin os))) /\
  (forall l, contains pat l = true <-> occurs pat l).
Proof.
  cbv zeta.
  assert (H1 : well_formed (Some (bytes "rv")) (bytes "cat"))
    by (apply Forall_cons; [now left|]; apply Forall_cons; [now right|];
        apply Forall_nil).
  assert (H2 : bytes "cat" <> []) by discriminate.
  assert (H3 : size (bytes "cat") <= INT_MAX) by (vm_compute; discriminate).
  assert (H4 : Forall (fun l => size l <= INT_MAX)
                      [bytes "cat"; bytes "dog"; bytes "catfish"])
    by (repeat constructor; vm_compute; discriminate).
  split; [repeat split; assumption|].
  exact (main_prints_the_lines_of_stdin
           (System (fun _ => OpenFails) (fun _ => Walk [] false)
                   [bytes "cat"; bytes "dog"; bytes "catfish"])
           [] (Some (bytes "rv")) (bytes "cat") H1 H2 H3 H4).
Defined.

(** X2. Without [-r], [main] scans the files named after the pattern in the
    order of the command line and writes, for each, the lines that the scan
    selects, each followed by a newline and with no label.  A file that
    cannot be opened or mapped contributes nothing and does not stop the
    run; [main] returns 0 all the same. *)
Theorem main_scans_the_named_files
        (os : system) (prog : list byte) (opts : option (list byte))
        (pat : list byte) (files : list (list byte)) :
  well_formed opts pat ->
  has_letter "r" (letters_of opts) = false ->
  pat <> [] ->
  files <> [] ->
  (forall p, In p files -> fits_int pat (file_at os p)) ->
  fst (main os (command_line prog opts pat files)) = Returns 0 /\
  written (snd (main os (command_line prog opts pat files)))
  = Some (flat_map
            (fun p => flat_map (fun l => l ++ [NL])
                               (file_lines os (config_of opts pat) p))
            files).
Proof.
  intros Hwf Hr HP Hfiles Hfit.
  rewrite main_command_line by assumption. cbn [fst snd].
  split; [reflexivity|].
  destruct files as [|f files]; [congruence|].
  rewrite written_then.
  rewrite written_main_files.
  - cbn [written say option_map stdout core no_effects].
    rewrite app_nil_r. f_equal.
    unfold config_of. cbn [recursive]. rewrite Hr.
    apply flat_map_ext. intros a. cbn [flat_map]. rewrite app_nil_r.
    apply flat_map_ext. intros l. reflexivity.
  - exact HP.
  - intros a p Ha. unfold config_of. cbn [recursive pattern]. rewrite Hr.
    intros [<- | []]. now apply Hfit.
Qed.

Lemma main_scans_the_named_files_witness :
  let os := System (fun p => if list_eq_dec Byte.byte_eq_dec p (bytes "a.txt")
                             then Mapped 8 (load (bytes "abc" ++ [NL]
                                                  ++ bytes "def" ++ [NL])
                                                 (fun _ => x00))
                             else OpenFails)
                   (fun _ => Walk [] false) [] in
  let files := [bytes "missing"; bytes "a.txt"] in
  (well_formed None (bytes "de") /\
   has_letter "r" (letters_of None) = false /\
   bytes "de" <> [] /\ files <> [] /\
   (forall p, In p files -> fits_int (bytes "de") (file_at os p))) /\
  fst (main os (command_line [] None (bytes "de") files)) = Returns 0 /\
  written (snd (main os (command_line [] None (bytes "de") files)))
  = Some (flat_map
            (fun p => flat_map (fun l => l ++ [NL])
                               (file_lines os (config_of None (bytes "de")) p))
            files).
Proof.
  cbv zeta.
  assert (H1 : well_formed None (bytes "de")) by (cbn; discriminate).
  assert (H3 : bytes "de" <> []) by discriminate.
  assert (H4 : [bytes "missing"; bytes "a.txt"] <> []) by discriminate.
  split.
  - split; [exact H1|]. split; [reflexivity|]. split; [exact H3|].
    split; [exact H4|].
    intros p [<- | [<- | []]]; vm_compute; [exact I | split; discriminate].
  - apply main_scans_the_named_files;
      [exact H1 | reflexivity | exact H3 | exact H4 |].
    intros p [<- | [<- | []]]; vm_compute; [exact I | split; discriminate].
Defined.

(** X3. Under [-r], [main] walks each argument after the pattern, in the
    order of the command line, scans the regular files that the walk
    yields, in its order, and writes every selected line as the path of the
    file, a colon, the line and a newline.  Entries that are no regular
    files are skipped; a file that cannot be opened or mapped, or a walk
    that ends with a filesystem error, contributes what was written before
    it and does not stop the run. *)
Theorem main_walks_the_directories
        (os : system) (prog : list byte) (letters : list byte)
        (pat : list byte) (dirs : list (list byte)) :
  option_letters letters ->
  has_letter "r" letters = true ->
  pat <> [] ->
  dirs <> [] ->
  (forall d p, In d dirs -> In p (regular_files os d) ->
               fits_int pat (file_at os p)) ->
  fst (main os (command_line prog (Some letters) pat dirs)) = Returns 0 /\
  written (snd (main os (command_line prog (Some letters) pat dirs)))
  = Some (flat_map
            (fun d =>
               flat_map
                 (fun p =>
                    flat_map (fun l => p ++ [COLON] ++ l ++ [NL])
                             (file_lines os (config_of (Some letters) pat) p))
                 (regular_files os d))
            dirs).
Proof.
  intros Hwf Hr HP Hdirs Hfit.
  rewrite main_command_line by exact Hwf. cbn [fst snd].
  split; [reflexivity|].
  destruct dirs as [|d dirs]; [congruence|].
  rewrite written_then.
  rewrite written_main_files.
  - cbn [written say option_map stdout core no_effects].
    rewrite app_nil_r. f_equal.
    unfold config_of. cbn [recursive letters_of]. rewrite Hr.
    apply flat_map_ext. intros a.
    apply flat_map_ext. intros p.
    apply flat_map_ext. intros l. unfold emit. cbn [recursive].
    now rewrite <- app_assoc.
  - exact HP.
  - intros a p Ha. unfold config_of. cbn [recursive pattern letters_of].
    rewrite Hr. now apply Hfit.
Qed.

Lemma main_walks_the_directories_witness :
  let text := load (bytes "abc" ++ [NL] ++ bytes "def" ++ [NL])
                   (fun _ => x00) in
  let os := System (fun p => if list_eq_dec Byte.byte_eq_dec p (bytes "d/a")
                             then Mapped 8 text else OpenFails)
                   (fun _ => Walk [Entry (bytes "d/sub") false;
                                   Entry (bytes "d/a") true;
                                   Entry (bytes "d/gone") true] true)
                   [] in
  (option_letters (bytes "r") /\ has_letter "r" (bytes "r") = true /\
   bytes "de" <> [] /\ [bytes "d"] <> [] /\
   (forall d p, In d [bytes "d"] -> In p (regular_files os d) ->
                fits_int (bytes "de") (file_at os p))) /\
  fst (main os (command_line [] (Some (bytes "r")) (bytes "de") [bytes "d"]))
  = Returns 0 /\
  written (snd (main os (command_line [] (Some (bytes "r")) (bytes "de")
                                      [bytes "d"])))
  = Some (flat_map
            (fun d =>
               flat_map
                 (fun p =>
                    flat_map (fun l => p ++ [COLON] ++ l ++ [NL])
                             (file_lines os (config_of (Some (bytes "r"))
                                                       (bytes "de")) p))
                 (regular_files os d))
            [bytes "d"]).
Proof.
  cbv zeta.
  assert (H1 : option_letters (bytes "r"))
    by (apply Forall_cons; [now left | apply Forall_nil]).
  assert (H3 : bytes "de" <> []) by discriminate.
  assert (H4 : [bytes "d"] <> []) by discriminate.
  split.
  - split; [exact H1|]. split; [reflexivity|]. split; [exact H3|].
    split; [exact H4|].
    intros d p _ [<- | [<- | []]]; vm_compute; [split; discriminate | exact I].
  - apply main_walks_the_directories;
      [exact H1 | reflexivity | exact H3 | exact H4 |].
    intros d p _ [<- | [<- | []]]; vm_compute; [split; discriminate | exact I].
Defined.

(** X4. The status that [main] returns tells nothing of the search.  It is
    1 when the command line has the program's name only, and when the
    option argument has a letter other than [r] and [v]: the first such
    letter is reported and nothing is searched.  An option argument with
    nothing after it makes [main] take [argv[argc]], a null pointer, for
    the pattern.  In every other case [main] returns 0, whether or not a
    line was printed or a file could be opened. *)
Theorem main_exit_status :
  (forall os prog,
     main os [prog] = (Returns 1, say (Usage prog))) /\
  (forall os prog good c rest more,
     option_letters good -> c <> "r"%byte -> c <> "v"%byte ->
     main os (prog :: ("-"%byte :: good ++ c :: rest) :: more)
     = (Returns 1, say (UnknownOption c))) /\
  (forall os prog letters,
     option_letters letters ->
     fst (main os [prog; "-"%byte :: letters]) = NullPointer) /\
  (forall os prog opts pat files,
     well_formed opts pat ->
     fst (main os (command_line prog opts pat files)) = Returns 0).
Proof.
  split; [reflexivity|]. split; [|split].
  - intros os prog good c rest more Hgood Hr Hv.
    cbn [main nth tl]. rewrite byte_eqb_refl.
    now rewrite parse_options_unknown.
  - intros os prog letters Hl.
    cbn [main nth tl]. rewrite byte_eqb_refl.
    now rewrite parse_options_letters.
  - intros os prog opts pat files Hwf.
    now rewrite main_command_line.
Qed.

Lemma main_exit_status_witness :
  let os := System (fun _ => OpenFails) (fun _ => Walk [] false) [] in
  (option_letters (bytes "rv") /\ "x"%byte <> "r"%byte /\
   "x"%byte <> "v"%byte /\ well_formed None (bytes "cat")) /\
  main os [bytes "grep"; "-"%byte :: bytes "rv" ++ "x"%byte :: bytes "r";
           bytes "cat"]
  = (Returns 1, say (UnknownOption "x")) /\
  fst (main os [bytes "grep"; "-"%byte :: bytes "rv"]) = NullPointer /\
  fst (main os (command_line (bytes "grep") None (bytes "cat")
                             [bytes "missing"])) = Returns 0.
Proof.
  cbv zeta.
  assert (H1 : option_letters (bytes "rv"))
    by (apply Forall_cons; [now left|]; apply Forall_cons; [now right|];
        apply Forall_nil).
  assert (H2 : "x"%byte <> "r"%byte) by discriminate.
  assert (H3 : "x"%byte <> "v"%byte) by discriminate.
  assert (H4 : well_formed None (bytes "cat")) by (cbn; discriminate).
  split; [repeat split; assumption|].
  split; [|split].
  - exact (proj1 (proj2 main_exit_status) _ _ _ _ _ _ H1 H2 H3).
  - exact (proj1 (proj2 (proj2 main_exit_status)) _ _ _ H1).
  - exact (proj2 (proj2 (proj2 main_exit_status)) _ _ _ _ _ H4).
Defined.



Lemma to_int_above (z : Z) :
  2147483648 <= z <= 4294967296 + INT_MAX -> to_int z = z - 4294967296.
Proof.
  unfold to_int, INT_MAX. intros H.
  rewrite <- (Z.mod_unique (z + 2147483648) 4294967296 1
                           (z + 2147483648 - 4294967296)); lia.
Qed.

(** X6. [fileMap] hands the size of the file to [searchFile] as an [int]:
    a file of 2 GiB up to 4 GiB is mapped and not scanned at all (nothing
    is read, nothing is written), and of a larger file, up to 6 GiB, only
    the bytes beyond the first 4 GiB are counted: the scan stops after
    [st_size - 4 GiB] bytes. *)
Theorem fileMap_takes_the_size_modulo_4GiB
        (os : system) (cfg : config) (path : list byte)
        (st_size : Z) (data : memory) :
  file_at os path = Mapped st_size data ->
  2147483648 <= st_size <= 4294967296 + INT_MAX ->
  (st_size <= 4294967296 ->
   option_map core (fileMap os cfg path) = Some no_effects) /\
  written (fileMap os cfg path)
  = output (searchFile cfg data (st_size - 4294967296) path).
Proof.
  intros Hfile Hsize. unfold fileMap. rewrite Hfile.
  rewrite to_int_above by exact Hsize.
  split.
  - intros Hle. unfold searchFile. cbn [searchFile_loop].
    assert (Hneg : (0 <? st_size - 4294967296) = false)
      by (apply Z.ltb_ge; lia).
    rewrite Hneg. reflexivity.
  - destruct (searchFile cfg data (st_size - 4294967296) path)
      as [[[] [tr out]]|]; cbn; [now rewrite app_nil_r | reflexivity].
Qed.

Lemma fileMap_takes_the_size_modulo_4GiB_witness :
  let data := load (bytes "abc" ++ [NL]) (fun _ => x00) in
  let os := System (fun _ => Mapped 2147483648 data)
                   (fun _ => Walk [] false) [] in
  let cfg := Config false false (bytes "b") in
  (file_at os [] = Mapped 2147483648 data /\
   2147483648 <= 2147483648 <= 4294967296 + INT_MAX) /\
  (2147483648 <= 4294967296 ->
   option_map core (fileMap os cfg []) = Some no_effects) /\
  written (fileMap os cfg [])
  = output (searchFile cfg data (2147483648 - 4294967296) []).
Proof.
  cbv zeta. split.
  - split; [reflexivity | vm_compute; split; discriminate].
  - apply fileMap_takes_the_size_modulo_4GiB;
      [reflexivity | vm_compute; split; discriminate].
Defined.

(** * More on the scanner *)

(** ** What [match] reads *)

Lemma bind_inv {A B} (m : M A) (f : A -> M B) (b : B) (e : effects) :
  bind m f = Some (b, e) ->
  exists a e1 e2,
    m = Some (a, e1) /\ f a = Some (b, e2) /\ e = seq_effects e1 e2.
Proof.
  unfold bind. destruct m as [[a e1]|]; [|discriminate].
  destruct (f a) as [[b' e2]|] eqn:E; [|discriminate].
  intros H. injection H as <- <-. now exists a, e1, e2.
Qed.

Lemma tell_inv {A} (e0 : effects) (m : M A) (a : A) (e : effects) :
  tell e0 m = Some (a, e) ->
  exists e2, m = Some (a, e2) /\ e = seq_effects e0 e2.
Proof.
  unfold tell. destruct m as [[a' e2]|]; [|discriminate].
  intros H. injection H as <- <-. now exists e2.
Qed.

Lemma matches_at_bytes (data : memory) : forall (Q : list byte) (pos : Z),
  matches_at data pos Q = true ->
  forall j, (j < length Q)%nat -> data (pos + Z.of_nat j) = nth j Q x00.
Proof.
  induction Q as [|q Q IH]; intros pos H j Hj; [cbn in Hj; lia|].
  cbn [matches_at] in H. apply andb_true_iff in H. destruct H as [Hq HQ].
  apply byte_eqb_eq in Hq. destruct j as [|j].
  - cbn. now rewrite Z.add_0_r.
  - cbn [nth]. rewrite <- (IH _ HQ j) by (cbn in Hj; lia). f_equal. lia.
Qed.

Section MatchReads.

Variable cfg : config.
Variable data : memory.
Variable pos : Z.
Hypothesis pos_nonneg : 0 <= pos.
Hypothesis pos_small : pos + size (pattern cfg) <= INT_MAX.

(** [match] reads a byte of memory only after all the bytes before it were
    equal to the pattern's. *)
Lemma match_while_reads : forall (fuel m : nat) (v : bool) (e : effects),
  (m < length (pattern cfg))%nat ->
  match_while cfg fuel data pos (Z.of_nat m) = Some (v, e) ->
  forall i, In (MatchRead i) (reads e) ->
  exists k : nat,
    i = pos + Z.of_nat (m + k) /\
    (m + k < length (pattern cfg))%nat /\
    matches_at data (pos + Z.of_nat m)
               (firstn k (skipn m (pattern cfg))) = true.
Proof.
  unfold size, INT_MAX in *.
  induction fuel as [|fuel IH]; intros m v e Hm Hrun i Hin; [discriminate|].
  cbn [match_while] in Hrun.
  rewrite to_int_id in Hrun by (unfold INT_MAX; lia).
  rewrite bind_read_data, bind_read_pattern in Hrun.
  rewrite string_at_nth in Hrun by (unfold INT_MAX; lia).
  apply tell_inv in Hrun. destruct Hrun as [e1 [Hrun ->]].
  apply tell_inv in Hrun. destruct Hrun as [e2 [Hrun ->]].
  cbn [seq_effects reads app] in Hin.
  assert (Hhere : exists k : nat,
            pos + Z.of_nat m = pos + Z.of_nat (m + k) /\
            (m + k < length (pattern cfg))%nat /\
            matches_at data (pos + Z.of_nat m)
                       (firstn k (skipn m (pattern cfg))) = true).
  { exists 0%nat. repeat split; [f_equal; lia | lia]. }
  destruct Hin as [Hi | [Hi | Hin]]; [injection Hi as <-; exact Hhere
                                     | discriminate |].
  destruct (Byte.eqb (data (pos + Z.of_nat m)) (nth m (pattern cfg) x00))
    eqn:E.
  - replace (Z.of_nat m + 1) with (Z.of_nat (S m)) in Hrun by lia.
    rewrite to_int_id in Hrun by (unfold INT_MAX; lia).
    rewrite patternSize_size in Hrun by (unfold size, INT_MAX; lia).
    unfold size in Hrun.
    destruct (Z.eqb_spec (Z.of_nat (S m)) (Z.of_nat (length (pattern cfg))))
      as [Heq|Hne].
    + injection Hrun as _ <-. destruct Hin.
    + destruct (IH (S m) v e2 ltac:(lia) Hrun i Hin) as [k [Hi [Hk Hmatch]]].
      exists (S k). repeat split; [rewrite Hi; f_equal; lia | lia |].
      rewrite (skipn_nth_cons x00 (pattern cfg) m) by lia.
      cbn [firstn matches_at]. rewrite E. cbn [andb].
      replace (pos + Z.of_nat m + 1) with (pos + Z.of_nat (S m)) by lia.
      exact Hmatch.
  - injection Hrun as _ <-. destruct Hin.
Qed.

End MatchReads.

(** X7. At an offset [pos], [match] answers whether the bytes of the
    pattern are in memory from [pos] on, the answer being inverted under
    [-v].  It reads the pattern inside itself, and reads [data[i]] exactly
    when [i] is at [pos] or after it, less than [patternSize] bytes away,
    and all the bytes from [pos] to [i] excluded are equal to the
    pattern's: no size of the buffer takes part. *)
Theorem match_compares_until_a_difference
        (cfg : config) (data : memory) (pos : Z) :
  pattern cfg <> [] ->
  0 <= pos ->
  pos + size (pattern cfg) <= INT_MAX ->
  exists tr,
    match_ cfg data pos
    = Some (xorb (complement cfg) (matches_at data pos (pattern cfg)),
            Effects tr []) /\
    Forall (in_match_window pos (pattern cfg)) tr /\
    forall i,
      In (MatchRead i) tr <->
      pos <= i < pos + size (pattern cfg) /\
      matches_at data pos (firstn (Z.to_nat (i - pos)) (pattern cfg)) = true.
Proof.
  intros HP Hpos Hmax.
  destruct (match_runs cfg HP data pos Hpos Hmax) as [tr [Hrun [Hwin Hin]]].
  exists tr. split; [|split; [exact Hwin|]].
  - rewrite Hrun. unfold verdict.
    destruct (complement cfg), (matches_at data pos (pattern cfg));
      reflexivity.
  - intros i. split.
    + intros Hi.
      pose proof (pattern_length_pos cfg HP) as Hlen.
      unfold match_ in Hrun.
      destruct (match_while_reads cfg data pos Hpos Hmax _ 0 _ _ Hlen Hrun i Hi)
        as [k [-> [Hk Hmatch]]].
      cbn [Nat.add skipn] in *. change (Z.of_nat 0) with 0 in Hmatch.
      rewrite Z.add_0_r in Hmatch. unfold size.
      split; [lia|].
      replace (Z.to_nat (pos + Z.of_nat k - pos)) with k by lia.
      exact Hmatch.
    + intros [Hi Hmatch]. unfold size in Hi.
      replace i with (pos + Z.of_nat (Z.to_nat (i - pos))) by lia.
      apply Hin; [lia | exact Hmatch].
Qed.

Lemma match_compares_until_a_difference_witness :
  let cfg := Config true false (bytes "abc") in
  let data := load (bytes "abd") (fun _ => x00) in
  (pattern cfg <> [] /\ 0 <= 0 /\ 0 + size (pattern cfg) <= INT_MAX) /\
  exists tr,
    match_ cfg data 0
    = Some (xorb (complement cfg) (matches_at data 0 (pattern cfg)),
            Effects tr []) /\
    Forall (in_match_window 0 (pattern cfg)) tr /\
    forall i,
      In (MatchRead i) tr <->
      0 <= i < 0 + size (pattern cfg) /\
      matches_at data 0 (firstn (Z.to_nat (i - 0)) (pattern cfg)) = true.
Proof.
  cbv zeta. split.
  - split; [discriminate|]. split; [lia | vm_compute; discriminate].
  - apply match_compares_until_a_difference;
      [discriminate | lia | vm_compute; discriminate].
Defined.

(** ** What [searchFile] reads *)

Section ScanReads.

Variable cfg : config.
Variable data : memory.
Variable sz : Z.
Variable fpath : list byte.
Hypothesis sz_small : sz < INT_MAX.

(** [ok]: the reads allowed; [at_cond]: the offsets at which the line loop
    may come to test its condition. *)
Variable ok : access -> Prop.
Variable at_cond : Z -> Prop.

Hypothesis at_cond_range : forall i, at_cond i -> 0 <= i <= sz.
Hypothesis at_cond_next :
  forall i, at_cond i -> i < sz -> data i <> NL -> at_cond (i + 1).
Hypothesis ok_cond : forall i, at_cond i -> ok (CondRead i).
Hypothesis ok_write : forall i, 0 <= i < sz -> ok (WriteRead i).
Hypothesis ok_match :
  forall i v e, at_cond i -> i < sz ->
                match_ cfg data i = Some (v, e) -> Forall ok (reads e).

Lemma searchFile_line_reads : forall (fuel : nat) (iter : Z) (found : bool)
                                     (v : Z * bool) (e : effects),
  at_cond iter ->
  searchFile_line cfg fuel data sz iter found = Some (v, e) ->
  Forall ok (reads e) /\
  iter <= fst v <= sz /\ (fst v < sz -> data (fst v) = NL).
Proof.
  induction fuel as [|fuel IH]; intros iter found v e Hat Hrun;
    [discriminate|].
  cbn [searchFile_line] in Hrun. rewrite bind_read_data in Hrun.
  apply tell_inv in Hrun. destruct Hrun as [e1 [Hrun ->]].
  pose proof (at_cond_range iter Hat) as Hrange.
  destruct (negb (Byte.eqb (data iter) NL) && (iter <? sz)) eqn:Hc.
  - apply andb_true_iff in Hc. destruct Hc as [Hnl Hlt].
    apply negb_true_iff, byte_eqb_neq in Hnl. apply Z.ltb_lt in Hlt.
    apply bind_inv in Hrun.
    destruct Hrun as [m [em [e2 [Hm [Hrun ->]]]]].
    rewrite to_int_id in Hrun by (unfold INT_MAX in *; lia).
    destruct (IH _ _ _ _ (at_cond_next iter Hat Hlt Hnl) Hrun)
      as [Hok [Hv Hend]].
    assert (Hokm : Forall ok (reads em)).
    { destruct found; cbn [negb] in Hm.
      - injection Hm as _ <-. constructor.
      - exact (ok_match iter m em Hat Hlt Hm). }
    cbn [seq_effects reads stdout app].
    split; [|split].
    + constructor; [now apply ok_cond|].
      apply Forall_app. split; assumption.
    + lia.
    + exact Hend.
  - injection Hrun as <- <-. cbn [seq_effects reads stdout app fst].
    split; [|split; [lia|]].
    + constructor; [now apply ok_cond | constructor].
    + intros Hlt. apply andb_false_iff in Hc. destruct Hc as [Hc|Hc].
      * apply negb_false_iff, byte_eqb_eq in Hc. exact Hc.
      * apply Z.ltb_ge in Hc. lia.
Qed.

Hypothesis at_cond_line :
  forall i, 0 <= i < sz -> (i = 0 \/ data (i - 1) = NL) -> at_cond i.

Lemma searchFile_loop_reads : forall (fuel : nat) (iter : Z) (e : effects),
  0 <= iter ->
  (iter = 0 \/ data (iter - 1) = NL \/ sz < iter) ->
  searchFile_loop cfg fuel data sz fpath iter = Some (tt, e) ->
  Forall ok (reads e).
Proof.
  induction fuel as [|fuel IH]; intros iter e Hi Hstart Hrun; [discriminate|].
  cbn [searchFile_loop] in Hrun.
  destruct (Z.ltb_spec iter sz) as [Hlt|Hge];
    [|injection Hrun as <-; constructor].
  assert (Hat : at_cond iter).
  { apply at_cond_line; [lia|]. destruct Hstart as [H|[H|H]]; [now left | now right | lia]. }
  apply bind_inv in Hrun. destruct Hrun as [[iter' found] [e1 [e2 [Hline [Hrun ->]]]]].
  destruct (searchFile_line_reads _ _ _ _ _ Hat Hline)
    as [Hok1 [Hrange Hend]].
  cbn [fst] in Hrange, Hend.
  apply bind_inv in Hrun. destruct Hrun as [[] [e3 [e4 [Hemit [Hrun ->]]]]].
  rewrite to_int_id in Hrun by (unfold INT_MAX in *; lia).
  assert (Hok4 : Forall ok (reads e4)).
  { apply (IH (iter' + 1)); [lia | | exact Hrun].
    destruct (Z.ltb_spec iter' sz) as [Hl|Hg].
    - right. left. replace (iter' + 1 - 1) with iter' by lia. now apply Hend.
    - right. right. lia. }
  assert (Hok3 : Forall ok (reads e3)).
  { destruct found.
    - rewrite to_int_id in Hemit by (unfold INT_MAX in *; lia).
      unfold cout_write, write in Hemit.
      destruct (recursive cfg); injection Hemit as <-;
        cbn [seq_effects reads app no_effects]; rewrite !app_nil_r;
        apply Forall_forall; intros a Ha;
        apply in_map_iff in Ha; destruct Ha as [i [<- Hin]];
        unfold offsets in Hin; apply in_map_iff in Hin;
        destruct Hin as [k [<- Hk]]; apply in_seq in Hk;
        apply ok_write; lia.
    - injection Hemit as <-. constructor. }
  cbn [seq_effects reads]. repeat (apply Forall_app; split); assumption.
Qed.

End ScanReads.

(** X8. [searchFile] reads no byte before the buffer and, after its end, at
    most [data[size]] in the condition of its line loop and the
    [patternSize - 1] bytes from [data[size]] on in [match]; what it copies
    to the output is read inside the buffer. *)
Theorem searchFile_reads_little_past_the_end
        (cfg : config) (data : memory) (sz : Z) (fpath : list byte) :
  pattern cfg <> [] ->
  0 <= sz ->
  sz + size (pattern cfg) <= INT_MAX ->
  exists tr,
    trace (searchFile cfg data sz fpath) = Some tr /\
    Forall (scan_reads_below (sz + 1) (sz + size (pattern cfg) - 1) sz
                             (pattern cfg)) tr.
Proof.
  intros HP Hsz Hmax.
  pose proof (pattern_length_pos cfg HP) as Hlen.
  destruct (searchFile_runs cfg data sz fpath HP Hsz Hmax) as [tr [Hrun _]].
  exists tr. rewrite Hrun. split; [reflexivity|].
  change tr with (reads (Effects tr (flat_map (emit cfg fpath)
                                               (selected cfg data sz)))).
  apply (searchFile_loop_reads cfg data sz fpath
           ltac:(unfold size in *; lia)
           (scan_reads_below (sz + 1) (sz + size (pattern cfg) - 1) sz
                             (pattern cfg))
           (fun i => 0 <= i <= sz))
    with (fuel := S (Z.to_nat sz)) (iter := 0).
  - intros i H. exact H.
  - intros i H Hlt _. lia.
  - intros i H. cbn. lia.
  - intros i H. cbn. lia.
  - intros i v e Hi Hlt Hm.
    destruct (match_runs cfg HP data i ltac:(lia)
                         ltac:(unfold size in *; lia))
      as [tr' [Hm' [Hwin _]]].
    rewrite Hm' in Hm. injection Hm as _ <-. cbn [reads].
    apply (Forall_impl _ (P := in_match_window i (pattern cfg)));
      [|exact Hwin].
    intros [j|j|j|j|j]; cbn; unfold size in *; lia.
  - intros i H _. lia.
  - lia.
  - now left.
  - exact Hrun.
Qed.

Lemma searchFile_reads_little_past_the_end_witness :
  let cfg := Config false false (bytes "abc") in
  let data := load (bytes "xab") (fun _ => "c"%byte) in
  (pattern cfg <> [] /\ 0 <= 3 /\ 3 + size (pattern cfg) <= INT_MAX) /\
  exists tr,
    trace (searchFile cfg data 3 []) = Some tr /\
    Forall (scan_reads_below (3 + 1) (3 + size (pattern cfg) - 1) 3
                             (pattern cfg)) tr.
Proof.
  cbv zeta. split.
  - split; [discriminate|]. split; [lia | vm_compute; discriminate].
  - apply searchFile_reads_little_past_the_end;
      [discriminate | lia | vm_compute; discriminate].
Defined.

(** X9. [searchFile] stays inside the buffer when the buffer ends with a
    newline and the pattern holds none: every byte of [data] that it reads,
    in the line loop, in [match] and for the output, is at an offset below
    [size]. *)
Theorem searchFile_stays_inside_a_terminated_buffer
        (cfg : config) (data : memory) (sz : Z) (fpath : list byte) :
  pattern cfg <> [] ->
  ~ In NL (pattern cfg) ->
  0 < sz ->
  sz + size (pattern cfg) <= INT_MAX ->
  data (sz - 1) = NL ->
  exists tr,
    trace (searchFile cfg data sz fpath) = Some tr /\
    Forall (scan_reads_below sz sz sz (pattern cfg)) tr.
Proof.
  intros HP Hnl Hsz Hmax Hlast.
  pose proof (pattern_length_pos cfg HP) as Hlen.
  destruct (searchFile_runs cfg data sz fpath HP ltac:(lia) Hmax)
    as [tr [Hrun _]].
  exists tr. rewrite Hrun. split; [reflexivity|].
  change tr with (reads (Effects tr (flat_map (emit cfg fpath)
                                               (selected cfg data sz)))).
  apply (searchFile_loop_reads cfg data sz fpath
           ltac:(unfold size in *; lia)
           (scan_reads_below sz sz sz (pattern cfg))
           (fun i => 0 <= i < sz))
    with (fuel := S (Z.to_nat sz)) (iter := 0).
  - intros i H. lia.
  - intros i H Hlt Hne.
    assert (i <> sz - 1) by (intros ->; contradiction). lia.
  - intros i H. cbn. lia.
  - intros i H. cbn. lia.
  - intros i v e Hi Hlt Hm.
    assert (Hfit : i + size (pattern cfg) <= INT_MAX)
      by (unfold size in *; lia).
    destruct (match_runs cfg HP data i ltac:(lia) Hfit)
      as [tr' [Hm' [Hwin _]]].
    pose proof Hm' as Hwhile. unfold match_ in Hwhile.
    rewrite Hm' in Hm. injection Hm as _ <-. cbn [reads].
    apply Forall_forall. intros a Ha.
    pose proof (proj1 (Forall_forall _ _) Hwin a Ha) as Hw.
    destruct a as [j|j|j|j|j]; cbn in Hw |- *; try contradiction;
      [exact Hw|].
    split; [lia|].
    destruct (Z.lt_ge_cases j sz) as [Hj|Hj]; [exact Hj|]. exfalso.
    destruct (match_while_reads cfg data i ltac:(lia) Hfit _ 0 _ _
                                Hlen Hwhile j Ha)
      as [k [Hjk [Hk Hmatch]]].
    cbn [Nat.add skipn] in Hjk, Hk, Hmatch.
    change (Z.of_nat 0) with 0 in Hmatch. rewrite Z.add_0_r in Hmatch.
    apply Hnl.
    pose proof (matches_at_bytes data _ i Hmatch (Z.to_nat (sz - 1 - i)))
      as Hbyte.
    unfold size in *.
    rewrite length_firstn in Hbyte.
    replace (i + Z.of_nat (Z.to_nat (sz - 1 - i))) with (sz - 1)
      in Hbyte by lia.
    rewrite Hlast in Hbyte. rewrite Hbyte by lia.
    rewrite nth_firstn.
    assert (Hlt' : (Z.to_nat (sz - 1 - i) <? k)%nat = true)
      by (apply Nat.ltb_lt; lia).
    rewrite Hlt'. apply nth_In. lia.
  - intros i H _. lia.
  - lia.
  - now left.
  - exact Hrun.
Qed.

Lemma searchFile_stays_inside_a_terminated_buffer_witness :
  let cfg := Config false false (bytes "abc") in
  let data := load (bytes "xab" ++ [NL]) (fun _ => "c"%byte) in
  (pattern cfg <> [] /\ ~ In NL (pattern cfg) /\ 0 < 4 /\
   4 + size (pattern cfg) <= INT_MAX /\ data (4 - 1) = NL) /\
  exists tr,
    trace (searchFile cfg data 4 []) = Some tr /\
    Forall (scan_reads_below 4 4 4 (pattern cfg)) tr.
Proof.
  cbv zeta.
  assert (Hnl : ~ In NL (pattern (Config false false (bytes "abc")))).
  { cbn. intros [H|[H|[H|[]]]]; discriminate. }
  split.
  - split; [discriminate|]. split; [exact Hnl|]. split; [lia|].
    split; [vm_compute; discriminate | reflexivity].
  - apply searchFile_stays_inside_a_terminated_buffer;
      [discriminate | exact Hnl | lia | vm_compute; discriminate
       | reflexivity].
Defined.

(** ** Witnesses for the two modes *)

Lemma stream_inversion_law_witness :
  (bytes "cat" <> [] /\ size (bytes "cat") <= INT_MAX /\
   size (bytes "a catfish") <= INT_MAX) /\
  stream_prints (Config true false (bytes "cat")) (bytes "a catfish")
  = negb (stream_prints (Config false true (bytes "cat")) (bytes "a catfish")).
Proof.
  split.
  - split; [discriminate|]. split; vm_compute; discriminate.
  - apply stream_inversion_law;
      [discriminate | vm_compute; discriminate | vm_compute; discriminate].
Defined.


(** ** How much [searchline] compares *)

Section Cost.

Variable cfg : config.
Hypothesis pattern_small : size (pattern cfg) <= INT_MAX.
Variable L : list byte.
Hypothesis line_small : size L <= INT_MAX.

Lemma searchline_while_cost : forall (fuel s m : nat) (v : option Z)
                                     (e : effects),
  (m < length (pattern cfg))%nat ->
  (s + m <= length L)%nat ->
  searchline_while cfg fuel L (Z.of_nat s) (Z.of_nat m) = Some (v, e) ->
  (length (reads e) <= 2 * (length (pattern cfg) - m))%nat.
Proof.
  unfold size, INT_MAX in *.
  induction fuel as [|fuel IH]; intros s m v e Hm Hs Hrun; [discriminate|].
  cbn [searchline_while] in Hrun.
  replace (Z.of_nat s + Z.of_nat m) with (Z.of_nat (s + m)) in Hrun by lia.
  rewrite to_int_id in Hrun by (unfold INT_MAX; lia).
  rewrite to_size_t_id in Hrun by (unfold INT_MAX; lia).
  unfold size in Hrun.
  destruct (Z.ltb_spec (Z.of_nat (s + m)) (Z.of_nat (length L))) as [Hlt|Hge];
    [|injection Hrun as _ <-; cbn; lia].
  rewrite bind_read_line, bind_read_pattern in Hrun.
  apply tell_inv in Hrun. destruct Hrun as [e1 [Hrun ->]].
  apply tell_inv in Hrun. destruct Hrun as [e2 [Hrun ->]].
  cbn [seq_effects reads app length].
  destruct (Byte.eqb _ _) in Hrun; [|injection Hrun as _ <-; cbn; lia].
  replace (Z.of_nat m + 1) with (Z.of_nat (S m)) in Hrun by lia.
  rewrite to_int_id in Hrun by (unfold INT_MAX; lia).
  rewrite patternSize_size in Hrun by (unfold size, INT_MAX; lia).
  unfold size in Hrun.
  destruct (Z.eqb_spec (Z.of_nat (S m)) (Z.of_nat (length (pattern cfg))))
    as [Heq|Hne]; [injection Hrun as _ <-; cbn; lia|].
  specialize (IH s (S m) v e2 ltac:(lia) ltac:(lia) Hrun). lia.
Qed.

Lemma searchline_for_cost : forall (fuel s : nat) (v : Z) (e : effects),
  (0 < length (pattern cfg))%nat ->
  (s <= length L)%nat ->
  searchline_for cfg fuel L (Z.of_nat s) = Some (v, e) ->
  (length (reads e) <= 2 * length (pattern cfg) * (length L - s))%nat.
Proof.
  induction fuel as [|fuel IH]; intros s v e HP Hs Hrun; [discriminate|].
  cbn [searchline_for] in Hrun.
  assert (HL : Z.of_nat (length L) <= INT_MAX) by exact line_small.
  rewrite to_size_t_id in Hrun by lia.
  unfold size in Hrun.
  destruct (Z.ltb_spec (Z.of_nat s) (Z.of_nat (length L))) as [Hlt|Hge];
    [|injection Hrun as _ <-; cbn; lia].
  apply bind_inv in Hrun. destruct Hrun as [r [e1 [e2 [Hwhile [Hrun ->]]]]].
  pose proof (searchline_while_cost _ s 0 _ _ HP ltac:(lia) Hwhile) as Hc1.
  cbn [seq_effects reads]. rewrite length_app.
  replace (length L - s)%nat with (S (length L - S s)) by lia.
  rewrite Nat.mul_succ_r.
  destruct r as [r|].
  - injection Hrun as _ <-. unfold no_effects. cbn [reads length]. nia.
  - replace (Z.of_nat s + 1) with (Z.of_nat (S s)) in Hrun by lia.
    rewrite to_int_id in Hrun by lia.
    specialize (IH (S s) v e2 HP ltac:(lia) Hrun). nia.
Qed.

End Cost.

(** X12. [searchline] compares at most [line.size() * patternSize] pairs of
    bytes: it makes at most that many reads of the line and as many of the
    pattern. *)
Theorem searchline_compares_at_most_line_times_pattern
        (cfg : config) (L : list byte) :
  pattern cfg <> [] ->
  size (pattern cfg) <= INT_MAX ->
  size L <= INT_MAX ->
  exists tr,
    trace (searchline cfg L) = Some tr /\
    Z.of_nat (length tr) <= 2 * (size L * size (pattern cfg)).
Proof.
  intros HP HPs HL.
  destruct (searchline_runs cfg L HP HPs HL) as [tr [Hrun _]].
  exists tr. rewrite Hrun. split; [reflexivity|].
  pose proof (pattern_length_pos cfg HP) as Hlen.
  pose proof (searchline_for_cost cfg HPs L HL (S (length L)) 0 _ _
                                  Hlen ltac:(lia) Hrun) as Hcost.
  cbn [reads] in Hcost. unfold size. nia.
Qed.

Lemma searchline_compares_at_most_line_times_pattern_witness :
  let cfg := Config false false (bytes "ab") in
  let L := bytes "aaaa" in
  (pattern cfg <> [] /\ size (pattern cfg) <= INT_MAX /\ size L <= INT_MAX) /\
  exists tr,
    trace (searchline cfg L) = Some tr /\
    Z.of_nat (length tr) <= 2 * (size L * size (pattern cfg)).
Proof.
  cbv zeta. split.
  - split; [discriminate|]. split; vm_compute; discriminate.
  - apply searchline_compares_at_most_line_times_pattern;
      [discriminate | vm_compute; discriminate | vm_compute; discriminate].
Defined.

(** ** The lines of a buffer *)

Lemma lines_at_in : forall (n : nat) (buf : list byte) (pos s : Z)
                           (l : list byte),
  (length buf <= n)%nat ->
  In (s, l) (lines_at pos buf) ->
  exists pre post,
    buf = pre ++ l ++ post /\ s = pos + size pre /\ ~ In NL l.
Proof.
  induction n as [|n IH]; intros buf pos s l Hn Hin.
  - destruct buf; [contradiction | cbn in Hn; lia].
  - destruct (span_line buf) as [l0 [tail [-> [Hl0 Htail]]]].
    destruct Htail as [-> | [tail' ->]].
    + rewrite app_nil_r in *.
      destruct l0 as [|b l0]; [contradiction|].
      rewrite lines_at_last_line in Hin by (assumption || discriminate).
      destruct Hin as [Heq | []]. injection Heq as <- <-.
      exists [], []. cbn [app]. rewrite app_nil_r.
      repeat split; [unfold size; cbn; lia | exact Hl0].
    + rewrite lines_at_line_nl in Hin by assumption.
      destruct Hin as [Heq | Hin].
      * injection Heq as <- <-. exists [], (NL :: tail').
        repeat split; [unfold size; cbn; lia | exact Hl0].
      * rewrite length_app in Hn. cbn [length] in Hn.
        destruct (IH tail' _ s l ltac:(lia) Hin)
          as [pre [post [-> [-> Hnl]]]].
        exists (l0 ++ NL :: pre), post. repeat split.
        -- now rewrite <- (app_assoc l0).
        -- unfold size. rewrite length_app. cbn [length]. lia.
        -- exact Hnl.
Qed.

(** A line of the buffer lies inside the buffer. *)
Lemma lines_at_buffer (data : memory) (sz : Z) (s : Z) (l : list byte) :
  0 <= sz ->
  In (s, l) (lines_at 0 (buffer_of data sz)) ->
  0 <= s /\ s + size l <= sz /\ holds data s l /\ ~ In NL l.
Proof.
  intros Hsz Hin.
  destruct (lines_at_in _ _ 0 s l (le_n _) Hin) as [pre [post [Hbuf [-> Hnl]]]].
  pose proof (buffer_of_length data sz Hsz) as Hlen.
  pose proof (holds_buffer_of data sz) as Hholds.
  rewrite Hbuf in Hlen, Hholds. unfold size in *.
  rewrite !length_app in Hlen.
  repeat split; [lia | lia | | exact Hnl].
  apply holds_app_l with (tail := post).
  apply (holds_app_r data 0 pre). exact Hholds.
Qed.

Lemma flat_map_ext_in {A B} (f g : A -> list B) (l : list A) :
  (forall x, In x l -> f x = g x) -> flat_map f l = flat_map g l.
Proof.
  induction l as [|x l IH]; intros H; [reflexivity|].
  cbn [flat_map]. rewrite H by now left.
  rewrite IH by (intros; apply H; now right). reflexivity.
Qed.

Lemma flat_map_nothing {A B} (l : list A) :
  flat_map (fun _ => @nil B) l = [].
Proof. induction l as [|x l IH]; [reflexivity | exact IH]. Qed.

Lemma existsb_const {A} (c : bool) (l : list A) :
  existsb (fun _ => c) l = c && match l with [] => false | _ => true end.
Proof.
  induction l as [|x l IH]; [now rewrite andb_false_r|].
  cbn [existsb]. rewrite IH. destruct c; reflexivity.
Qed.

(** ** The empty pattern *)

Section EmptyPattern.

Variable cfg : config.
Hypothesis pattern_empty : pattern cfg = [].

Lemma result_0 : negb (result cfg 0 =? 0) = complement cfg.
Proof. unfold result. destruct (complement cfg); reflexivity. Qed.

Lemma searchline_empty_pattern (L : list byte) :
  ~ In x00 L -> size L <= INT_MAX ->
  forall (fuel s : nat),
  (s <= length L)%nat -> (length L - s < fuel)%nat ->
  exists tr,
    searchline_for cfg fuel L (Z.of_nat s) = Some (result cfg 0, Effects tr []).
Proof.
  intros Hnul HL. unfold size in HL.
  induction fuel as [|fuel IH]; intros s Hs Hf; [lia|].
  cbn [searchline_for].
  rewrite to_size_t_id by lia. unfold size.
  destruct (Z.ltb_spec (Z.of_nat s) (Z.of_nat (length L))) as [Hlt|Hge];
    [|exists []; reflexivity].
  cbn [searchline_while]. rewrite Z.add_0_r.
  rewrite to_int_id by (unfold INT_MAX in *; lia).
  rewrite to_size_t_id by lia. unfold size.
  assert (Hguard : (Z.of_nat s <? Z.of_nat (length L)) = true)
    by (apply Z.ltb_lt; exact Hlt).
  rewrite Hguard, bind_read_line, bind_read_pattern.
  rewrite string_at_nth by lia. rewrite pattern_empty.
  change (string_at [] 0) with x00.
  assert (Hne : Byte.eqb (nth s L x00) x00 = false).
  { apply byte_eqb_neq. intros H. apply Hnul. rewrite <- H.
    apply nth_In. lia. }
  rewrite Hne. run_simpl.
  replace (Z.of_nat s + 1) with (Z.of_nat (S s)) by lia.
  rewrite to_int_id by (unfold INT_MAX in *; lia).
  destruct (IH (S s)) as [tr Hrun]; try lia.
  rewrite Hrun. run_simpl. eexists. reflexivity.
Qed.

Lemma match_empty_pattern (data : memory) (i : Z) :
  0 <= i <= INT_MAX -> data i <> x00 ->
  match_ cfg data i
  = Some (complement cfg, Effects [MatchRead i; PatternRead 0] []).
Proof.
  intros Hi Hne. unfold match_. rewrite pattern_empty.
  cbn [length match_while]. rewrite Z.add_0_r.
  rewrite to_int_id by (unfold INT_MAX in *; lia).
  rewrite bind_read_data, bind_read_pattern. rewrite pattern_empty.
  change (string_at [] 0) with x00.
  apply byte_eqb_neq in Hne. rewrite Hne. run_simpl.
  now rewrite result_0.
Qed.

End EmptyPattern.

(** X13. The empty pattern is found in no line that has no NUL byte.  In
    stream mode such a line is printed exactly under [-v].  In buffer mode,
    on a buffer with no NUL byte, nothing is written without [-v], and
    under [-v] every line of one byte at least is written, and no empty
    line. *)
Theorem empty_pattern_is_never_found (cfg : config) :
  pattern cfg = [] ->
  (forall L : list byte,
     ~ In x00 L -> size L <= INT_MAX ->
     stream_prints cfg L = complement cfg) /\
  (forall (data : memory) (sz : Z) (fpath : list byte),
     0 <= sz < INT_MAX ->
     (forall i, 0 <= i < sz -> data i <> x00) ->
     output (searchFile cfg data sz fpath)
     = Some (if complement cfg
             then flat_map (emit cfg fpath)
                    (map snd
                       (filter (fun ln => match snd ln with
                                          | [] => false
                                          | _ :: _ => true
                                          end)
                               (lines_at 0 (buffer_of data sz))))
             else [])).
Proof.
  intros HP. split.
  - intros L Hnul HL. unfold stream_prints, searchline.
    destruct (searchline_empty_pattern cfg HP L Hnul HL (S (length L)) 0)
      as [tr Hrun]; try lia.
    change (Z.of_nat 0) with 0 in Hrun. rewrite Hrun.
    cbn [value option_map fst]. now apply result_0.
  - intros data sz fpath Hsz Hnul. unfold searchFile.
    assert (Hmatch : forall i, 0 <= i < sz ->
              match_ cfg data i
              = Some (complement cfg, Effects [MatchRead i; PatternRead 0] [])).
    { intros i Hi. apply match_empty_pattern;
        [exact HP | lia | now apply Hnul]. }
    destruct (searchFile_loop_spec cfg data sz) with
      (fpath := fpath) (fuel := S (Z.to_nat sz))
      (rest := buffer_of data sz) (iter := 0)
      as [tr [Hrun _]].
    + lia.
    + intros i Hi. rewrite (Hmatch i Hi). now eexists _, _.
    + lia.
    + rewrite buffer_of_length by lia. lia.
    + apply holds_buffer_of.
    + pose proof (buffer_of_length data sz ltac:(lia)) as H.
      unfold size in H. lia.
    + rewrite Hrun. cbn [output option_map snd stdout]. f_equal.
      rewrite (flat_map_ext_in _
                 (fun ln => if complement cfg &&
                               match snd ln with [] => false | _ => true end
                            then emit cfg fpath (snd ln) else [])).
      * destruct (complement cfg); cbn [andb].
        -- now rewrite flat_map_selected.
        -- apply flat_map_nothing.
      * intros [s l] Hin. cbn [snd].
        destruct (lines_at_buffer data sz s l ltac:(lia) Hin)
          as [Hs [Hend _]].
        unfold line_found, offsets. cbn [fst snd].
        rewrite existsb_map.
        rewrite (existsb_ext _ (fun _ => complement cfg)).
        -- rewrite existsb_const.
           destruct l; cbn; rewrite ?andb_false_r, ?andb_true_r; reflexivity.
        -- intros k Hk. apply in_seq in Hk. unfold size in Hend.
           unfold match_succeeds. rewrite Hmatch by lia. reflexivity.
Qed.

Lemma empty_pattern_is_never_found_witness :
  let cfg := Config true false [] in
  pattern cfg = [] /\
  (forall L : list byte,
     ~ In x00 L -> size L <= INT_MAX ->
     stream_prints cfg L = complement cfg) /\
  (forall (data : memory) (sz : Z) (fpath : list byte),
     0 <= sz < INT_MAX ->
     (forall i, 0 <= i < sz -> data i <> x00) ->
     output (searchFile cfg data sz fpath)
     = Some (if complement cfg
             then flat_map (emit cfg fpath)
                    (map snd
                       (filter (fun ln => match snd ln with
                                          | [] => false
                                          | _ :: _ => true
                                          end)
                               (lines_at 0 (buffer_of data sz))))
             else [])).
Proof.
  cbv zeta. split; [reflexivity|].
  exact (empty_pattern_is_never_found (Config true false []) eq_refl).
Defined.

(** ** Buffer mode under [-v] *)



(** ** Scanning a buffer in two parts *)

Lemma matches_at_advance (data : memory) (k : Z) : forall (P : list byte) pos,
  matches_at (advance data k) pos P = matches_at data (k + pos) P.
Proof.
  induction P as [|p P IH]; intros pos; [reflexivity|].
  cbn [matches_at]. rewrite IH. unfold advance.
  now replace (k + (pos + 1)) with (k + pos + 1) by lia.
Qed.

Lemma lines_at_shift (k : Z) : forall (buf : list byte) (pos : Z),
  lines_at (pos + k) buf
  = map (fun ln => (fst ln + k, snd ln)) (lines_at pos buf).
Proof.
  induction buf as [|b buf IH]; intros pos; [reflexivity|].
  cbn [lines_at].
  replace (pos + k + 1) with (pos + 1 + k) by lia. rewrite IH.
  destruct (Byte.eqb b NL); [reflexivity|].
  destruct (lines_at (pos + 1) buf) as [|[s l] ls]; reflexivity.
Qed.

Lemma filter_map_swap {A B} (f : B -> bool) (g : A -> B) (l : list A) :
  filter f (map g l) = map g (filter (fun x => f (g x)) l).
Proof.
  induction l as [|x l IH]; [reflexivity|].
  cbn [map filter]. destruct (f (g x)); cbn [map]; now rewrite IH.
Qed.

Lemma offsets_app (start : Z) (n m : nat) :
  offsets start (n + m)
  = offsets start n ++ offsets (start + Z.of_nat n) m.
Proof.
  revert start. induction n as [|n IH]; intros start.
  - change (Z.of_nat 0) with 0. now rewrite Z.add_0_r.
  - cbn [Nat.add]. rewrite !offsets_S, IH. cbn [app]. do 3 f_equal. lia.
Qed.

Lemma buffer_of_app (data : memory) (k n : Z) :
  0 <= k -> 0 <= n ->
  buffer_of data (k + n) = buffer_of data k ++ buffer_of (advance data k) n.
Proof.
  intros Hk Hn. unfold buffer_of.
  rewrite Z2Nat.inj_add by assumption.
  rewrite offsets_app, map_app. f_equal.
  unfold offsets. rewrite !map_map. apply map_ext. intros j.
  unfold advance. f_equal. lia.
Qed.

Lemma buffer_of_newline (data : memory) (k : Z) :
  0 < k -> data (k - 1) = NL ->
  buffer_of data k = buffer_of data (k - 1) ++ [NL].
Proof.
  intros Hk Hnl.
  replace k with ((k - 1) + 1) at 1 by lia.
  rewrite buffer_of_app by lia. f_equal.
  unfold buffer_of, advance, offsets.
  change (Z.to_nat 1) with 1%nat. cbn [seq map].
  f_equal. rewrite <- Hnl. f_equal. lia.
Qed.

(** X15. A buffer can be scanned in two parts cut after a newline: the
    output for the whole buffer is the output for the part up to that
    newline followed by the output for the part after it, scanned from the
    pointer [data + k] on. *)
Theorem searchFile_after_a_newline
        (cfg : config) (data : memory) (k n : Z) (fpath : list byte) :
  pattern cfg <> [] ->
  0 < k -> 0 <= n ->
  k + n + size (pattern cfg) <= INT_MAX ->
  data (k - 1) = NL ->
  exists out1 out2,
    output (searchFile cfg data k fpath) = Some out1 /\
    output (searchFile cfg (advance data k) n fpath) = Some out2 /\
    output (searchFile cfg data (k + n) fpath) = Some (out1 ++ out2).
Proof.
  intros HP Hk Hn Hmax Hnl.
  pose proof (pattern_length_pos cfg HP) as Hlen.
  destruct (searchFile_runs cfg data k fpath HP) as [tr1 [Hrun1 _]];
    [lia | unfold size in *; lia |].
  destruct (searchFile_runs cfg (advance data k) n fpath HP)
    as [tr2 [Hrun2 _]]; [lia | unfold size in *; lia |].
  destruct (searchFile_runs cfg data (k + n) fpath HP) as [tr [Hrun _]];
    [lia | unfold size in *; lia |].
  exists (flat_map (emit cfg fpath) (selected cfg data k)),
         (flat_map (emit cfg fpath) (selected cfg (advance data k) n)).
  rewrite Hrun1, Hrun2, Hrun. cbn [output option_map snd stdout].
  split; [reflexivity|]. split; [reflexivity|]. f_equal.
  rewrite <- flat_map_app. f_equal.
  unfold selected.
  rewrite buffer_of_app by lia.
  rewrite (buffer_of_newline data k Hk Hnl).
  rewrite lines_at_app, filter_app, map_app. f_equal.
  rewrite <- (buffer_of_newline data k Hk Hnl).
  rewrite (buffer_of_length data k) by lia.
  rewrite (lines_at_shift k _ 0), filter_map_swap, map_map.
  cbn [snd]. f_equal. apply filter_ext_in. intros [s l] Hin.
  destruct (lines_at_buffer (advance data k) n s l Hn Hin) as [Hs [Hend _]].
  unfold line_found, offsets. cbn [fst snd].
  rewrite !existsb_map. apply existsb_ext. intros j Hj.
  apply in_seq in Hj. unfold size in *.
  rewrite !(match_succeeds_verdict cfg HP)
    by (unfold size, INT_MAX in *; lia).
  unfold verdict. rewrite matches_at_advance.
  now replace (k + (s + Z.of_nat j)) with (s + k + Z.of_nat j) by lia.
Qed.

Lemma searchFile_after_a_newline_witness :
  let cfg := Config false false (bytes "a") in
  let data := load (bytes "abc" ++ [NL] ++ bytes "xay") (fun _ => x00) in
  (pattern cfg <> [] /\ 0 < 4 /\ 0 <= 3 /\
   4 + 3 + size (pattern cfg) <= INT_MAX /\ data (4 - 1) = NL) /\
  exists out1 out2,
    output (searchFile cfg data 4 []) = Some out1 /\
    output (searchFile cfg (advance data 4) 3 []) = Some out2 /\
    output (searchFile cfg data (4 + 3) []) = Some (out1 ++ out2).
Proof.
  cbv zeta. split.
  - split; [discriminate|]. split; [lia|]. split; [lia|].
    split; [vm_compute; discriminate | reflexivity].
  - apply searchFile_after_a_newline;
      [discriminate | lia | lia | vm_compute; discriminate | reflexivity].
Defined.

(** ** The lines written *)

Lemma lines_at_whole : forall (n : nat) (buf : list byte) (pos s : Z)
                              (l : list byte),
  (length buf <= n)%nat ->
  In (s, l) (lines_at pos buf) -> whole_line buf l.
Proof.
  unfold whole_line.
  induction n as [|n IH]; intros buf pos s l Hn Hin.
  - destruct buf; [contradiction | cbn in Hn; lia].
  - destruct (span_line buf) as [l0 [tail [-> [Hl0 Htail]]]].
    destruct Htail as [-> | [tail' ->]].
    + rewrite app_nil_r in *.
      destruct l0 as [|b l0]; [contradiction|].
      rewrite lines_at_last_line in Hin by (assumption || discriminate).
      destruct Hin as [Heq | []]. injection Heq as <- <-.
      split; [exact Hl0|]. exists [], []. cbn [app]. rewrite app_nil_r.
      repeat split; now left.
    + rewrite lines_at_line_nl in Hin by assumption.
      destruct Hin as [Heq | Hin].
      * injection Heq as <- <-. split; [exact Hl0|].
        exists [], (NL :: tail').
        repeat split; [now left | right; now exists tail'].
      * rewrite length_app in Hn. cbn [length] in Hn.
        destruct (IH tail' _ s l ltac:(lia) Hin)
          as [Hnl [pre [post [-> [Hpre Hpost]]]]].
        split; [exact Hnl|].
        exists (l0 ++ NL :: pre), post. repeat split.
        -- now rewrite <- (app_assoc l0).
        -- right. destruct Hpre as [-> | [pre' ->]].
           ++ now exists l0.
           ++ exists (l0 ++ NL :: pre'). now rewrite <- (app_assoc l0).
        -- exact Hpost.
Qed.

(** X16. What [searchFile] writes is made of whole lines of the buffer:
    each line written is a run of bytes of the buffer that holds no
    newline, begins at the start of the buffer or after a newline and ends
    at the end of the buffer or before a newline, and has a byte at
    least. *)
Theorem searchFile_writes_whole_lines
        (cfg : config) (data : memory) (sz : Z) (fpath : list byte) :
  pattern cfg <> [] ->
  0 <= sz ->
  sz + size (pattern cfg) <= INT_MAX ->
  output (searchFile cfg data sz fpath)
  = Some (flat_map (emit cfg fpath) (selected cfg data sz)) /\
  Forall (fun l => l <> [] /\ whole_line (buffer_of data sz) l)
         (selected cfg data sz).
Proof.
  intros HP Hsz Hmax.
  destruct (searchFile_runs cfg data sz fpath HP Hsz Hmax) as [tr [Hrun _]].
  rewrite Hrun. split; [reflexivity|].
  pose proof (selected_nonempty cfg data sz) as Hne.
  rewrite Forall_forall in *. intros l Hl. split; [now apply Hne|].
  unfold selected in Hl. apply in_map_iff in Hl.
  destruct Hl as [[s l'] [Heq Hin]]. cbn [snd] in Heq. subst l'.
  apply filter_In in Hin. destruct Hin as [Hin _].
  exact (lines_at_whole _ _ 0 s l (le_n _) Hin).
Qed.

Lemma searchFile_writes_whole_lines_witness :
  let cfg := Config false false (bytes "b") in
  let data := load (bytes "abc" ++ [NL] ++ bytes "xby") (fun _ => x00) in
  (pattern cfg <> [] /\ 0 <= 7 /\ 7 + size (pattern cfg) <= INT_MAX) /\
  output (searchFile cfg data 7 [])
  = Some (flat_map (emit cfg []) (selected cfg data 7)) /\
  Forall (fun l => l <> [] /\ whole_line (buffer_of data 7) l)
         (selected cfg data 7).
Proof.
  cbv zeta. split.
  - split; [discriminate|]. split; [lia | vm_compute; discriminate].
  - apply searchFile_writes_whole_lines;
      [discriminate | lia | vm_compute; discriminate].
Defined.
